(** * WordleGuessr: feedback patterns, candidate filtering and scoring

    A shallow embedding of the engine of [wordleGuessr.py]
    ([pattern_for], [consistent_with], [filter_candidates],
    [position_frequencies], [likelihood_score], [best_likelihood_guess],
    [entropy_of_guess], [best_entropy_guess]) and the properties its
    specification states about it, followed by [load_words] and the
    session that [WordleGUI] keeps (candidates, turn and feedback buttons),
    with what the code shows of them.

    Python values are modelled as follows.
    - [str] is [string], its characters are [ascii]; [list(word)] is the
      list of its characters.
    - A Python exception is a value of [exn], a computation that may raise
      is a [result].
    - [Counter] is a finite map to [Z] whose missing keys read as 0.
    - [defaultdict(int)] whose values are later iterated is an association
      list in insertion order.
    - [float] is IEEE-754 binary64, as [spec_float] with precision 53 and
      maximal exponent 1024; [math.log2] comes from the C library and is a
      parameter of the functions that call it. *)

From Stdlib Require Import ZArith String Ascii List Floats.
From stdpp Require Import gmap strings list sorting.

(** * The program *)

(** ** Exceptions *)

Inductive exn : Type :=
  | IndexError
  | ZeroDivisionError
  | ValueError.

Inductive result (A : Type) : Type :=
  | Ok (a : A)
  | Raise (e : exn).
Arguments Ok {A} a.
Arguments Raise {A} e.

Global Instance exn_eq_dec : EqDecision exn.
Proof. solve_decision. Defined.

Global Instance result_eq_dec {A : Type} `{EqDecision A} : EqDecision (result A).
Proof. solve_decision. Defined.

Global Instance result_ret : MRet result := λ A a, Ok a.
Global Instance result_bind : MBind result := λ A B f m,
  match m with
  | Ok a => f a
  | Raise e => Raise e
  end.

(** [for x in xs: st = body(st, x)], stopping at the first exception. *)
Fixpoint for_in {S A : Type} (xs : list A) (body : S → A → result S) (st : S)
  : result S :=
  match xs with
  | [] => Ok st
  | x :: xs' => st' ← body st x; for_in xs' body st'
  end.

(** [range(n)] *)
Definition range (n : nat) : list nat := seq 0 n.
Global Arguments range : simpl never.

(** [l[i]] for a non-negative index. *)
Definition getitem {A : Type} (l : list A) (i : nat) : result A :=
  match l !! i with
  | Some x => Ok x
  | None => Raise IndexError
  end.

(** [l[i] = x] for a non-negative index. *)
Definition setitem {A : Type} (l : list A) (i : nat) (x : A) : result (list A) :=
  if bool_decide (i < length l) then Ok (<[i := x]> l) else Raise IndexError.

(** [enumerate(xs)] *)
Definition enumerate {A : Type} (xs : list A) : list (nat * A) :=
  imap (λ i x, (i, x)) xs.

(** ** Counters *)

Section counter.
Context {K : Type} `{Countable K}.

(** [c[k]]: a missing key reads as 0 and is not inserted. *)
Definition counter_get (c : gmap K Z) (k : K) : Z := default 0%Z (c !! k).

(** [c[k] += d] *)
Definition counter_add (c : gmap K Z) (k : K) (d : Z) : gmap K Z :=
  <[k := (counter_get c k + d)%Z]> c.

End counter.

(** ** Word list *)

(** The built-in word list of the program. *)
Definition FALLBACK : list string := [
  "arise"; "adieu"; "alone"; "angle"; "apple"; "baker"; "basic"; "beach"; "beast"; "belly";
  "brave"; "candy"; "cater"; "chair"; "crane"; "cream"; "crown"; "eagle"; "fancy"; "flame";
  "glare"; "grain"; "grape"; "graph"; "great"; "heart"; "linen"; "magma"; "major"; "maple";
  "ocean"; "plant"; "pride"; "primo"; "quiet"; "raise"; "ratio"; "slate"; "stare"; "trace"
]%string.

(** ** Wordle mechanics *)

Definition Correct : ascii := "C".
Definition Present : ascii := "P".
Definition Absent : ascii := "N".

(** The loops of [pattern_for] work on [s] (the solution's characters, a
    matched one overwritten with [None]), [res] and [remaining]. *)
Record pattern_state : Type := PatternState {
  ps_s : list (option ascii);
  ps_res : list ascii;
  ps_remaining : gmap (option ascii) Z
}.

Definition first_pass (g : list ascii) (st : pattern_state) (i : nat)
  : result pattern_state :=
  gi ← getitem g i;
  si ← getitem (ps_s st) i;
  if bool_decide (Some gi = si) then
    res ← setitem (ps_res st) i Correct;
    s ← setitem (ps_s st) i None;
    Ok (PatternState s res (ps_remaining st))
  else
    si' ← getitem (ps_s st) i;
    Ok (PatternState (ps_s st) (ps_res st) (counter_add (ps_remaining st) si' 1)).

Definition second_pass (g : list ascii) (st : pattern_state) (i : nat)
  : result pattern_state :=
  ri ← getitem (ps_res st) i;
  if bool_decide (ri = Correct) then Ok st
  else
    ch ← getitem g i;
    if bool_decide (0 < counter_get (ps_remaining st) (Some ch))%Z then
      res ← setitem (ps_res st) i Present;
      Ok (PatternState (ps_s st) res (counter_add (ps_remaining st) (Some ch) (-1)))
    else
      res ← setitem (ps_res st) i Absent;
      Ok (PatternState (ps_s st) res (ps_remaining st)).

Definition pattern_init (solution : string) : pattern_state :=
  PatternState (Some <$> list_ascii_of_string solution) (replicate 5 Absent) ∅.

Definition pattern_for (guess solution : string) : result string :=
  let g := list_ascii_of_string guess in
  st ← for_in (range 5) (first_pass g) (pattern_init solution);
  st ← for_in (range 5) (second_pass g) st;
  Ok (string_of_list_ascii (ps_res st)).

Definition consistent_with (guess pat candidate : string) : result bool :=
  p ← pattern_for guess candidate;
  Ok (bool_decide (p = pat)).

(** The list comprehension [[w for w in cands if consistent_with(...)]]:
    a new list is built, [cands] is only read. *)
Definition filter_candidates (cands : list string) (guess pat : string)
  : result (list string) :=
  for_in cands
    (λ acc w, b ← consistent_with guess pat w;
              Ok (if b : bool then acc ++ [w] else acc))
    ([] : list string).

(** ** Floats *)

(** Python's [float] is IEEE-754 binary64. *)
Abbreviation float := spec_float.

Definition float_add : float → float → float := SFadd prec emax.
Definition float_mul : float → float → float := SFmul prec emax.
Definition float_div : float → float → float := SFdiv prec emax.
Definition float_neg : float → float := SFopp.
(** [a < b], [a > b] and [a == b]; each is false when an operand is NaN. *)
Definition float_lt : float → float → bool := SFltb.
Definition float_gt (a b : float) : bool := SFltb b a.
Definition float_eq : float → float → bool := SFeqb.
Definition float_le : float → float → bool := SFleb.

(** The conversion of an [int] that takes part in float arithmetic, rounded
    to nearest even (exact below 2^53, as every count and length here).
    Python raises [OverflowError] for an [int] of magnitude 2^1024 or more;
    the integers converted in this program are counts of words and lengths
    of lists, so that error is out of reach and the conversion has none. *)
Definition float_of_int (z : Z) : float := binary_normalize prec emax z 0 false.

(** The literals [0.0], [-1.0] and [0.1]. *)
Definition float_zero : float := S754_zero false.
Definition float_minus_one : float := S754_finite true 4503599627370496 (-52).
Definition float_tenth : float := S754_finite false 7205759403792794 (-56).

(** [k / n] on two [int]s: true division, which raises on a zero divisor
    and otherwise is the correctly rounded quotient (the IEEE quotient of
    the converted operands, both being exact). *)
Definition truediv (k n : Z) : result float :=
  if bool_decide (n = 0%Z) then Raise ZeroDivisionError
  else Ok (float_div (float_of_int k) (float_of_int n)).

(** ** Scoring *)

Definition position_frequencies (words : list string)
  : result (list (gmap ascii Z)) :=
  for_in words
    (λ pos w,
       for_in (enumerate (list_ascii_of_string w))
         (λ pos '(i, ch),
            c ← getitem pos i;
            setitem pos i (counter_add c ch 1))
         pos)
    (replicate 5 (∅ : gmap ascii Z)).

Definition likelihood_score (word : string) (pos_freq : list (gmap ascii Z))
  : result float :=
  '(score, seen) ← for_in (enumerate (list_ascii_of_string word))
    (λ '(score, seen) '(i, ch),
       c ← getitem pos_freq i;
       Ok (float_add score (float_of_int (counter_get c ch)), {[ch]} ∪ seen))
    (float_zero, (∅ : gset ascii));
  Ok (float_add score (float_mul float_tenth (float_of_int (Z.of_nat (size seen))))).

(** The running best of both scans starts as [None, -1.0]. *)
Definition best_init : option string * float := (None, float_minus_one).

Definition best_likelihood_guess (candidates : list string)
  : result (option string * float) :=
  pf ← position_frequencies candidates;
  for_in candidates
    (λ '(best, best_s) w,
       s ← likelihood_score w pf;
       Ok (if float_gt s best_s then (Some w, s) else (best, best_s)))
    best_init.

(** [buckets[key] += 1] on a [defaultdict(int)]; a new key goes last, which
    is where [buckets.values()] yields it. *)
Fixpoint bucket_incr (buckets : list (string * Z)) (key : string)
  : list (string * Z) :=
  match buckets with
  | [] => [(key, (0 + 1)%Z)]
  | (k, v) :: rest =>
      if decide (k = key) then (k, (v + 1)%Z) :: rest
      else (k, v) :: bucket_incr rest key
  end.

(** [best_g not in candidates], where [best_g] is [None] or a word. *)
Definition not_in_candidates (best_g : option string) (candidates : list string)
  : bool :=
  match best_g with
  | None => true
  | Some b => bool_decide (b ∉ candidates)
  end.

(** The test and assignment in the loop of [best_entropy_guess]. *)
Definition entropy_step (candidates : list string) (best : option string * float)
    (g : string) (e : float) : option string * float :=
  if float_gt e best.2
     || (float_eq e best.2 && bool_decide (g ∈ candidates)
         && not_in_candidates best.1 candidates)
  then (Some g, e) else best.

Section entropy.
(** [math.log2]. *)
Variable log2 : float → result float.

Definition entropy_of_guess (guess : string) (candidates : list string)
  : result float :=
  buckets ← for_in candidates
    (λ buckets sol, p ← pattern_for guess sol; Ok (bucket_incr buckets p))
    ([] : list (string * Z));
  let n := Z.of_nat (length candidates) in
  for_in (buckets.*2)
    (λ ent k,
       p ← truediv k n;
       l ← log2 p;
       Ok (float_add ent (float_mul (float_neg p) l)))
    float_zero.

(** The loop of [best_entropy_guess] over a pool. *)
Definition best_entropy_scan (candidates pool : list string)
    (best : option string * float) : result (option string * float) :=
  for_in pool
    (λ best g, e ← entropy_of_guess g candidates;
               Ok (entropy_step candidates best g e))
    best.

Definition best_entropy_guess (candidates allowed : list string)
  : result (option string * float) :=
  let pool := if bool_decide (30 < length candidates) then allowed else candidates in
  best_entropy_scan candidates pool best_init.
End entropy.

(** An executable stand-in for [math.log2] in examples: the integer part of
    the logarithm, which is the logarithm itself on powers of two; like
    [math.log2] it raises [ValueError] on zero and on negative numbers. *)
Definition log2_floor (x : float) : result float :=
  match x with
  | S754_finite false m e => Ok (float_of_int (Z.pos (digits2_pos m) - 1 + e))
  | S754_infinity false => Ok x
  | S754_nan => Ok x
  | _ => Raise ValueError
  end.

(** * The vocabulary of the specification *)

(** ** Words *)

(** All words of a list have length 5. *)
Definition words (ws : list string) : Prop :=
  Forall (λ w, String.length w = 5) ws.

(** ** Counting positions *)

(** The number of positions [i < n] at which [φ] holds. *)
Fixpoint count_below (n : nat) (φ : nat → bool) : nat :=
  match n with
  | O => O
  | S k => count_below k φ + (if φ k then 1 else 0)
  end.

(** ** Marks and letters *)

(** Position [j] is a hit when guess and solution agree there. *)
Definition hit (g s : list ascii) (j : nat) : bool :=
  bool_decide (g !! j = s !! j).

(** The solution has letter [c] at [j] and the guess does not match there. *)
Definition unmatched (g s : list ascii) (c : ascii) (j : nat) : bool :=
  bool_decide (s !! j = Some c) && negb (hit g s j).

(** The guess has letter [c] at [j] and the solution does not match there. *)
Definition misplaced (g s : list ascii) (c : ascii) (j : nat) : bool :=
  bool_decide (g !! j = Some c) && negb (hit g s j).

(** The guess has letter [c] at [j] and the pattern has mark [m] there. *)
Definition marked (m : ascii) (g p : list ascii) (c : ascii) (j : nat) : bool :=
  bool_decide (g !! j = Some c) && bool_decide (p !! j = Some m).

(** The solution has letter [c] at position [j]. *)
Definition occurs (s : list ascii) (c : ascii) (j : nat) : bool :=
  bool_decide (s !! j = Some c).

(** The duplicate-letter rule for a pattern [p] of [guess] against
    [solution]: a position is Correct exactly when the two words agree
    there; for every letter, the positions of the guess holding it that are
    marked Correct or Present are at most its occurrences in the solution;
    and its Present marks are as many as the solution's unmatched
    occurrences allow, those being what is left once the Correct matches
    are taken out. *)
Definition duplicate_letter_rule (guess solution p : string) : Prop :=
  let g := list_ascii_of_string guess in
  let s := list_ascii_of_string solution in
  let m := list_ascii_of_string p in
  (∀ i, i < 5 → m !! i = Some Correct ↔ g !! i = s !! i) ∧
  (∀ c, count_below 5 (marked Correct g m c) + count_below 5 (marked Present g m c)
        ≤ count_below 5 (occurs s c)) ∧
  (∀ c, count_below 5 (marked Present g m c) =
        count_below 5 (misplaced g s c) `min` count_below 5 (unmatched g s c)).

(** Every symbol of [p] is one of C, P, N. *)
Definition three_symbols (p : string) : Prop :=
  ∀ ch, ch ∈ list_ascii_of_string p → ch = Correct ∨ ch = Present ∨ ch = Absent.

(** ** The best guess *)

(** [x] is a number and not below zero. *)
Definition nonneg (x : float) : Prop := float_le float_zero x = true.

(** What the scan needs of [math.log2] when there are [n] candidates: for
    every bucket size [k], [log2] is defined on the probability [p = k / n]
    and the term [-p * log2(p)] is a non-negative number. *)
Definition log2_fits (log2 : float → result float) (n : Z) : Prop :=
  ∀ k, (1 ≤ k ≤ n)%Z →
       ∃ p y, truediv k n = Ok p ∧ log2 p = Ok y
              ∧ nonneg (float_mul (float_neg p) y).

(** A decidable form of [log2_fits], for a given number of candidates. *)
Definition log2_fits_check (log2 : float → result float) (n : nat) : bool :=
  forallb
    (λ k, match truediv (Z.of_nat k) (Z.of_nat n) with
          | Ok p => match log2 p with
                    | Ok y => float_le float_zero (float_mul (float_neg p) y)
                    | Raise _ => false
                    end
          | Raise _ => false
          end)
    (seq 1 n).

(** [r] is the outcome of a search of [pool]: the initial pair when the
    pool is empty, and otherwise a word of the pool, with its entropy, such
    that every word of the pool has an entropy and none a greater one. *)
Definition searched (log2 : float → result float)
    (candidates pool : list string) (r : result (option string * float))
  : Prop :=
  (pool = [] ∧ r = Ok best_init)
  ∨ ∃ b be, r = Ok (Some b, be) ∧ b ∈ pool
            ∧ entropy_of_guess log2 b candidates = Ok be
            ∧ ∀ g, g ∈ pool →
                   ∃ e, entropy_of_guess log2 g candidates = Ok e
                        ∧ float_le e be = true.

(** The pool that [best_entropy_guess] scans. *)
Definition chosen_pool (candidates allowed : list string) : list string :=
  if bool_decide (30 < length candidates) then allowed else candidates.

(** The condition under which the loop replaces the running best by the
    guess [g] of entropy [e]. *)
Definition replaces (candidates : list string) (best : option string * float)
    (g : string) (e : float) : Prop :=
  float_gt e best.2 = true
  ∨ (float_eq e best.2 = true ∧ g ∈ candidates
     ∧ ∀ b, best.1 = Some b → b ∉ candidates).

(** [b] with entropy [be] is the word the tie-break rule selects from
    [pool]: its entropy is greatest; it is a member of [candidates] if some
    word of greatest entropy is; and a word before it in the pool has a
    smaller entropy, or the same entropy while not being a member of
    [candidates] when [b] is one. *)
Definition scan_winner (log2 : float → result float)
    (candidates pool : list string) (b : string) (be : float) : Prop :=
  entropy_of_guess log2 b candidates = Ok be ∧
  (∀ g e, g ∈ pool → entropy_of_guess log2 g candidates = Ok e →
          float_le e be = true) ∧
  (∀ g e, g ∈ pool → entropy_of_guess log2 g candidates = Ok e →
          float_eq e be = true → g ∈ candidates → b ∈ candidates) ∧
  (∃ l1 l2, pool = l1 ++ b :: l2 ∧
     ∀ g e, g ∈ l1 → entropy_of_guess log2 g candidates = Ok e →
            float_lt e be = true
            ∨ (float_eq e be = true ∧ (g ∉ candidates) ∧ b ∈ candidates)).

(** The tie-break rule of [best_entropy_guess]: what one step of the scan
    does, that the scan is the iteration of that step, and what word it
    ends on. *)
Definition tie_break_rule (log2 : float → result float)
    (candidates allowed : list string) : Prop :=
  (∀ best g e,
     (replaces candidates best g e →
      entropy_step candidates best g e = (Some g, e))
     ∧ (¬ replaces candidates best g e →
        entropy_step candidates best g e = best))
  ∧ (∀ seen g best,
       best_entropy_scan log2 candidates (seen ++ [g]) best =
       best' ← best_entropy_scan log2 candidates seen best;
       e ← entropy_of_guess log2 g candidates;
       Ok (entropy_step candidates best' g e))
  ∧ ∃ b be, best_entropy_guess log2 candidates allowed = Ok (Some b, be)
            ∧ scan_winner log2 candidates (chosen_pool candidates allowed) b be.

(** * The program on examples *)

Example pattern_for_crane_grape : pattern_for "crane" "grape" = Ok "NCCNC"%string.
Proof. vm_compute. reflexivity. Qed.

Example pattern_for_sassy_class : pattern_for "sassy" "class" = Ok "PPNCN"%string.
Proof. vm_compute. reflexivity. Qed.

Example pattern_for_alert_level : pattern_for "alert" "level" = Ok "NPPNN"%string.
Proof. vm_compute. reflexivity. Qed.

Example pattern_for_short : pattern_for "cran" "grape" = Raise IndexError.
Proof. vm_compute. reflexivity. Qed.

Example float_zero_literal : Prim2SF 0%float = float_zero.
Proof. reflexivity. Qed.

Example float_minus_one_literal : Prim2SF (-1)%float = float_minus_one.
Proof. reflexivity. Qed.

Example float_tenth_literal : Prim2SF 0x1.999999999999ap-4%float = float_tenth.
Proof. reflexivity. Qed.

Example likelihood_three :
  best_likelihood_guess ["crane"; "slate"; "grape"]%string
  = Ok (Some "crane"%string, Prim2SF 10.5%float).
Proof. vm_compute. reflexivity. Qed.

Example entropy_two :
  entropy_of_guess log2_floor "crane" ["crane"; "slate"]%string
  = Ok (Prim2SF 1%float).
Proof. vm_compute. reflexivity. Qed.

Example filter_candidates_crane :
  filter_candidates ["crane"; "slate"; "grape"]%string "crane" "NCCNC"
  = Ok ["grape"%string].
Proof. vm_compute. reflexivity. Qed.

Example best_entropy_guess_two :
  best_entropy_guess log2_floor ["crane"; "slate"]%string ["adieu"%string]
  = Ok (Some "crane"%string, Prim2SF 1%float).
Proof. vm_compute. reflexivity. Qed.

(** * Proofs *)

(** ** Exceptions, loops and indexing *)

Lemma result_bind_Ok {A B : Type} (a : A) (f : A → result B) : Ok a ≫= f = f a.
Proof. reflexivity. Qed.

Lemma result_bind_Raise {A B : Type} (e : exn) (f : A → result B) :
  Raise e ≫= f = Raise e.
Proof. reflexivity. Qed.

Lemma for_in_app {S A : Type} (xs ys : list A) (body : S → A → result S) st :
  for_in (xs ++ ys) body st = st' ← for_in xs body st; for_in ys body st'.
Proof.
  revert st. induction xs as [|x xs IH]; intros st; [done|].
  simpl. destruct (body st x) as [st'|e]; simpl; [apply IH | done].
Qed.

Lemma for_in_range_S {S : Type} (k : nat) (body : S → nat → result S) st :
  for_in (range (Datatypes.S k)) body st = st' ← for_in (range k) body st; body st' k.
Proof.
  unfold range. rewrite seq_S, for_in_app. simpl.
  destruct (for_in (seq 0 k) body st) as [st'|e]; simpl; [|done].
  by destruct (body st' k).
Qed.

Lemma getitem_Ok {A : Type} (l : list A) i x : l !! i = Some x → getitem l i = Ok x.
Proof. unfold getitem. by intros ->. Qed.

Lemma getitem_Raise {A : Type} (l : list A) i :
  length l ≤ i → getitem l i = Raise IndexError.
Proof. intros Hi. unfold getitem. by rewrite lookup_ge_None_2. Qed.

Lemma setitem_Ok {A : Type} (l : list A) i x :
  i < length l → setitem l i x = Ok (<[i := x]> l).
Proof. intros Hi. unfold setitem. by rewrite bool_decide_eq_true_2. Qed.

(** ** Counters and counts *)

Section counter_facts.
Context {K : Type} `{Countable K}.

Lemma counter_get_empty (k : K) : counter_get ∅ k = 0%Z.
Proof. unfold counter_get. by rewrite lookup_empty. Qed.

Lemma counter_get_add (c : gmap K Z) (k k' : K) (d : Z) :
  counter_get (counter_add c k d) k' =
  if decide (k = k') then (counter_get c k + d)%Z else counter_get c k'.
Proof.
  unfold counter_add, counter_get at 1. rewrite lookup_insert.
  by case_decide.
Qed.

End counter_facts.

Lemma count_below_S n (φ : nat → bool) :
  count_below (S n) φ = count_below n φ + (if φ n then 1 else 0).
Proof. reflexivity. Qed.

Lemma count_below_ext n (φ ψ : nat → bool) :
  (∀ j, j < n → φ j = ψ j) → count_below n φ = count_below n ψ.
Proof.
  induction n as [|n IH]; intros Hext; [done|].
  simpl. rewrite IH by (intros; apply Hext; lia).
  by rewrite Hext by lia.
Qed.

Lemma count_below_split n (φ ψ χ : nat → bool) :
  (∀ j, j < n → φ j = ψ j || χ j) →
  (∀ j, j < n → ψ j && χ j = false) →
  count_below n φ = count_below n ψ + count_below n χ.
Proof.
  induction n as [|n IH]; intros Hor Hdisj; [done|].
  simpl. rewrite IH by (intros; first [apply Hor | apply Hdisj]; lia).
  specialize (Hor n ltac:(lia)). specialize (Hdisj n ltac:(lia)).
  destruct (φ n), (ψ n), (χ n); simpl in *; try discriminate; lia.
Qed.

Lemma marked_lookup m (g p : list ascii) c j x :
  p !! j = Some x →
  marked m g p c j = bool_decide (g !! j = Some c) && bool_decide (Some x = Some m).
Proof. intros Hx. unfold marked. by rewrite Hx. Qed.

Lemma length_list_ascii_of_string (w : string) :
  length (list_ascii_of_string w) = String.length w.
Proof. induction w as [|a w IH]; simpl; congruence. Qed.

(** ** The two passes of [pattern_for] *)

Section passes.
Variables guess solution : string.
Let g := list_ascii_of_string guess.
Let s0 := list_ascii_of_string solution.

Record first_inv (k : nat) (st : pattern_state) : Prop := FirstInv {
  fi_s : ∀ j, k ≤ j → ps_s st !! j = (Some <$> s0) !! j;
  fi_len : length (ps_res st) = 5;
  fi_lo : ∀ j, j < k →
    ps_res st !! j = Some (if hit g s0 j then Correct else Absent);
  fi_hi : ∀ j, k ≤ j < 5 → ps_res st !! j = Some Absent;
  fi_rem : ∀ c, counter_get (ps_remaining st) (Some c) =
                Z.of_nat (count_below k (unmatched g s0 c))
}.

Lemma first_pass_inv k :
  k ≤ 5 → k ≤ length g → k ≤ length s0 →
  ∃ st, for_in (range k) (first_pass g) (pattern_init solution) = Ok st
        ∧ first_inv k st.
Proof.
  induction k as [|k IH]; intros Hk Hg Hs.
  - eexists; split; [done|].
    split; unfold pattern_init; cbn [ps_s ps_res ps_remaining].
    + done.
    + apply length_replicate.
    + intros j Hj. lia.
    + intros j Hj. apply lookup_replicate_2. lia.
    + intros c. by rewrite counter_get_empty.
  - destruct IH as (st & Hrun & Hinv); [lia..|].
    rewrite for_in_range_S, Hrun. simpl.
    destruct (lookup_lt_is_Some_2 g k ltac:(lia)) as [gk Hgk].
    destruct (lookup_lt_is_Some_2 s0 k ltac:(lia)) as [sk Hsk].
    destruct Hinv as [Hs' Hlen Hlo Hhi Hrem].
    assert (Hsk' : ps_s st !! k = Some (Some sk)).
    { rewrite Hs' by lia. by rewrite list_lookup_fmap, Hsk. }
    unfold first_pass.
    rewrite (getitem_Ok _ _ _ Hgk), (getitem_Ok _ _ _ Hsk'). simpl.
    assert (Hhit : hit g s0 k = bool_decide (Some gk = Some sk)).
    { unfold hit. by rewrite Hgk, Hsk. }
    assert (Hun : ∀ c, unmatched g s0 c k =
                       bool_decide (Some sk = Some c) && negb (hit g s0 k)).
    { intros c. unfold unmatched. by rewrite Hsk. }
    rewrite Hhit in Hun.
    case_bool_decide as Heq.
    + rewrite (setitem_Ok (ps_res st)) by lia. simpl.
      rewrite (setitem_Ok (ps_s st)) by (apply lookup_lt_is_Some; eauto). simpl.
      eexists; split; [done|]. split; cbn [ps_s ps_res ps_remaining].
      * intros j Hj. rewrite list_lookup_insert_ne by lia. apply Hs'; lia.
      * by rewrite length_insert.
      * intros j Hj. destruct (decide (j = k)) as [->|Hne].
        -- rewrite list_lookup_insert_eq by lia. by rewrite Hhit.
        -- rewrite list_lookup_insert_ne by done. apply Hlo; lia.
      * intros j Hj. rewrite list_lookup_insert_ne by lia. apply Hhi; lia.
      * intros c. rewrite count_below_S, Hrem, Hun, andb_false_r. lia.
    + simpl. eexists; split; [done|]. split; cbn [ps_s ps_res ps_remaining]; [|done|..].
      * intros j Hj. apply Hs'; lia.
      * intros j Hj. destruct (decide (j = k)) as [->|Hne].
        -- rewrite Hhit. apply Hhi; lia.
        -- apply Hlo; lia.
      * intros j Hj. apply Hhi; lia.
      * intros c. rewrite count_below_S, counter_get_add, !Hrem, Hun, andb_true_r.
        case_decide as Hc; case_bool_decide as Hc'; simplify_eq; lia.
Qed.

Record second_inv (k : nat) (st : pattern_state) : Prop := SecondInv {
  si_len : length (ps_res st) = 5;
  si_hit : ∀ j, j < 5 → hit g s0 j = true → ps_res st !! j = Some Correct;
  si_lo : ∀ j, j < k → hit g s0 j = false →
    ps_res st !! j = Some Present ∨ ps_res st !! j = Some Absent;
  si_hi : ∀ j, k ≤ j < 5 → hit g s0 j = false → ps_res st !! j = Some Absent;
  si_rem : ∀ c, counter_get (ps_remaining st) (Some c) =
    (Z.of_nat (count_below 5 (unmatched g s0 c))
     - Z.of_nat (count_below k (marked Present g (ps_res st) c)))%Z;
  si_min : ∀ c, count_below k (marked Present g (ps_res st) c) =
    count_below k (misplaced g s0 c) `min` count_below 5 (unmatched g s0 c)
}.

Lemma second_inv_start st : first_inv 5 st → second_inv 0 st.
Proof.
  intros [_ Hlen Hlo _ Hrem]. split; try done.
  - intros j Hj Hhit. by rewrite Hlo, Hhit.
  - intros j Hj. lia.
  - intros j Hj Hhit. by rewrite Hlo, Hhit by lia.
  - intros c. rewrite Hrem. simpl. lia.
Qed.

Lemma count_marked_insert k m x res c :
  count_below k (marked m g (<[k := x]> res) c) = count_below k (marked m g res c).
Proof.
  apply count_below_ext. intros j Hj. unfold marked.
  by rewrite list_lookup_insert_ne by lia.
Qed.

Lemma second_pass_inv st1 k :
  5 ≤ length g → first_inv 5 st1 → k ≤ 5 →
  ∃ st, for_in (range k) (second_pass g) st1 = Ok st ∧ second_inv k st.
Proof.
  intros Hg Hst1. induction k as [|k IH]; intros Hk.
  - eexists; split; [done|]. by apply second_inv_start.
  - destruct IH as (st & Hrun & Hinv); [lia|].
    rewrite for_in_range_S, Hrun. simpl.
    destruct (lookup_lt_is_Some_2 g k ltac:(lia)) as [gk Hgk].
    destruct Hinv as [Hlen Hhit Hlo Hhi Hrem Hmin].
    assert (Hmis : ∀ c, misplaced g s0 c k =
                        bool_decide (Some gk = Some c) && negb (hit g s0 k)).
    { intros c. unfold misplaced. by rewrite Hgk. }
    unfold second_pass. destruct (hit g s0 k) eqn:Hk_hit.
    + rewrite (getitem_Ok _ _ _ (Hhit k ltac:(lia) Hk_hit)). simpl.
      eexists; split; [done|]. split; try done.
      * intros j Hj Hj_hit. apply Hlo; [|done].
        destruct (decide (j = k)) as [->|]; [congruence | lia].
      * intros j Hj. apply Hhi; lia.
      * intros c. rewrite (count_below_S k), Hrem.
        rewrite (marked_lookup _ _ _ _ _ _ (Hhit k ltac:(lia) Hk_hit)).
        rewrite (bool_decide_eq_false_2 (Some Correct = Some Present)) by done.
        rewrite andb_false_r. lia.
      * intros c. rewrite !(count_below_S k), Hmin, Hmis.
        rewrite (marked_lookup _ _ _ _ _ _ (Hhit k ltac:(lia) Hk_hit)).
        rewrite (bool_decide_eq_false_2 (Some Correct = Some Present)) by done.
        rewrite !andb_false_r. lia.
    + rewrite (getitem_Ok _ _ _ (Hhi k ltac:(lia) Hk_hit)). simpl.
      rewrite (getitem_Ok _ _ _ Hgk). simpl.
      assert (Hmk : ∀ m x c, marked m g (<[k := x]> (ps_res st)) c k =
                             bool_decide (Some gk = Some c) && bool_decide (Some x = Some m)).
      { intros m x c. unfold marked.
        by rewrite Hgk, list_lookup_insert_eq by lia. }
      case_bool_decide as Hpos.
      * rewrite setitem_Ok by lia. simpl.
        eexists; split; [done|]. split; cbn [ps_s ps_res ps_remaining].
        -- by rewrite length_insert.
        -- intros j Hj Hj_hit.
           destruct (decide (j = k)) as [->|]; [congruence|].
           rewrite list_lookup_insert_ne by done. by apply Hhit.
        -- intros j Hj Hj_hit. destruct (decide (j = k)) as [->|].
           ++ left. by rewrite list_lookup_insert_eq by lia.
           ++ rewrite list_lookup_insert_ne by done. apply Hlo; [lia|done].
        -- intros j Hj Hj_hit. rewrite list_lookup_insert_ne by lia.
           apply Hhi; [lia|done].
        -- intros c. rewrite (count_below_S k), count_marked_insert, Hmk.
           rewrite counter_get_add, !Hrem.
           rewrite (bool_decide_eq_true_2 (Some Present = Some Present)) by done.
           rewrite andb_true_r.
           case_decide; case_bool_decide; simplify_eq; lia.
        -- intros c. rewrite !(count_below_S k), count_marked_insert, Hmk, Hmis.
           rewrite (bool_decide_eq_true_2 (Some Present = Some Present)) by done.
           rewrite !andb_true_r.
           rewrite Hrem in Hpos. pose proof (Hmin gk) as Hgk_min.
           rewrite Hmin.
           case_bool_decide; simplify_eq; lia.
      * rewrite setitem_Ok by lia. simpl.
        eexists; split; [done|]. split; cbn [ps_s ps_res ps_remaining].
        -- by rewrite length_insert.
        -- intros j Hj Hj_hit.
           destruct (decide (j = k)) as [->|]; [congruence|].
           rewrite list_lookup_insert_ne by done. by apply Hhit.
        -- intros j Hj Hj_hit. destruct (decide (j = k)) as [->|].
           ++ right. by rewrite list_lookup_insert_eq by lia.
           ++ rewrite list_lookup_insert_ne by done. apply Hlo; [lia|done].
        -- intros j Hj Hj_hit. rewrite list_lookup_insert_ne by lia.
           apply Hhi; [lia|done].
        -- intros c. rewrite (count_below_S k), count_marked_insert, Hmk, Hrem.
           rewrite (bool_decide_eq_false_2 (Some Absent = Some Present)) by done.
           rewrite andb_false_r. lia.
        -- intros c. rewrite !(count_below_S k), count_marked_insert, Hmk, Hmis.
           rewrite (bool_decide_eq_false_2 (Some Absent = Some Present)) by done.
           rewrite andb_false_r, andb_true_r.
           rewrite Hrem in Hpos. pose proof (Hmin gk) as Hgk_min.
           rewrite Hmin.
           case_bool_decide; simplify_eq; lia.
Qed.

(** With both words of length at least 5 the two loops run to their end. *)
Lemma pattern_for_run :
  5 ≤ length g → 5 ≤ length s0 →
  ∃ st, pattern_for guess solution = Ok (string_of_list_ascii (ps_res st))
        ∧ second_inv 5 st.
Proof.
  intros Hg Hs.
  destruct (first_pass_inv 5) as (st1 & Hrun1 & Hinv1); [done..|].
  destruct (second_pass_inv st1 5) as (st & Hrun & Hinv); [done..|].
  exists st. split; [|done].
  unfold pattern_for. fold g.
  by rewrite Hrun1, result_bind_Ok, Hrun, result_bind_Ok.
Qed.

(** A word shorter than 5 makes the first loop raise [IndexError]. *)
Lemma pattern_for_short_raises :
  length g < 5 ∨ length s0 < 5 →
  pattern_for guess solution = Raise IndexError.
Proof.
  intros Hshort. set (n := length g `min` length s0).
  destruct (first_pass_inv n) as (st & Hrun & Hinv); [lia..|].
  assert (Hrange : range 5 = range n ++ n :: seq (S n) (4 - n)).
  { unfold range. replace 5 with (n + S (4 - n)) at 1 by lia.
    by rewrite seq_app. }
  unfold pattern_for. fold g.
  rewrite Hrange, for_in_app, Hrun, result_bind_Ok. cbn [for_in].
  assert (Hstep : first_pass g st n = Raise IndexError).
  { unfold first_pass. destruct (decide (length g ≤ n)) as [Hle|Hgt].
    - rewrite (getitem_Raise g n) by done. reflexivity.
    - destruct (lookup_lt_is_Some_2 g n ltac:(lia)) as [gn Hgn].
      rewrite (getitem_Ok _ _ _ Hgn). simpl.
      unfold getitem. rewrite (fi_s _ _ Hinv) by lia.
      rewrite list_lookup_fmap, lookup_ge_None_2; [reflexivity | lia]. }
  by rewrite Hstep, !result_bind_Raise.
Qed.
End passes.

Lemma second_inv_correct_iff guess solution st i :
  second_inv guess solution 5 st → i < 5 →
  ps_res st !! i = Some Correct ↔
  list_ascii_of_string guess !! i = list_ascii_of_string solution !! i.
Proof.
  intros Hinv Hi.
  destruct (hit (list_ascii_of_string guess) (list_ascii_of_string solution) i)
    eqn:Hhit.
  - split; intros _.
    + by apply bool_decide_eq_true in Hhit.
    + by apply (si_hit _ _ _ _ Hinv).
  - apply bool_decide_eq_false in Hhit. split; [|done].
    intros Hc. destruct (si_lo _ _ _ _ Hinv i) as [HP|HN]; try done.
    + by apply bool_decide_eq_false.
    + rewrite HP in Hc. discriminate.
    + rewrite HN in Hc. discriminate.
Qed.

Lemma pattern_for_returns (guess solution : string) :
  String.length guess = 5 → String.length solution = 5 →
  ∃ p, pattern_for guess solution = Ok p.
Proof.
  intros Hg Hs.
  destruct (pattern_for_run guess solution) as (st & Hrun & _);
    [rewrite length_list_ascii_of_string; lia..|].
  by eexists.
Qed.

(** ** Words longer than five characters *)

(** Two results agree up to a relation on their values. *)
Definition result_rel {A B : Type} (R : A → B → Prop) (r : result A) (r' : result B)
  : Prop :=
  match r, r' with
  | Ok a, Ok b => R a b
  | Raise e, Raise e' => e = e'
  | _, _ => False
  end.

Lemma for_in_sim {S S' A : Type} (R : S → S' → Prop) (xs : list A)
    (body : S → A → result S) (body' : S' → A → result S') st st' :
  R st st' →
  (∀ x st st', x ∈ xs → R st st' → result_rel R (body st x) (body' st' x)) →
  result_rel R (for_in xs body st) (for_in xs body' st').
Proof.
  revert st st'. induction xs as [|x xs IH]; intros st st' HR Hbody; [done|].
  simpl. pose proof (Hbody x st st' ltac:(left) HR) as Hx.
  destruct (body st x) as [st1|e], (body' st' x) as [st1'|e']; simpl in *; try done.
  apply IH; [done|]. intros y st2 st2' Hy. apply Hbody. by right.
Qed.

(** The states of two runs of [pattern_for] that differ only beyond
    position 5 of [s]. *)
Definition same_upto_5 (st st' : pattern_state) : Prop :=
  ps_res st = ps_res st' ∧ ps_remaining st = ps_remaining st' ∧
  ∀ j, j < 5 → ps_s st !! j = ps_s st' !! j.

Lemma first_pass_sim (g g' : list ascii) st st' i :
  i < 5 → g !! i = g' !! i → same_upto_5 st st' →
  result_rel same_upto_5 (first_pass g st i) (first_pass g' st' i).
Proof.
  intros Hi Hg (Hres & Hrem & Hs). unfold first_pass, getitem.
  rewrite <- Hg, <- (Hs i Hi), <- Hres, <- Hrem.
  destruct (g !! i) as [gi|]; simpl; [|done].
  destruct (ps_s st !! i) as [si|] eqn:Hsi; simpl; [|done].
  case_bool_decide; simpl; [|done].
  assert (Hsi' : ps_s st' !! i = Some si) by (by rewrite <- Hs).
  unfold setitem.
  rewrite (bool_decide_eq_true_2 (i < length (ps_s st)))
    by (by eapply lookup_lt_Some).
  rewrite (bool_decide_eq_true_2 (i < length (ps_s st')))
    by (by eapply lookup_lt_Some).
  destruct (bool_decide (i < length (ps_res st))); simpl; [|done].
  repeat split; try done. intros j Hj. simpl.
  destruct (decide (j = i)) as [->|Hne].
  - rewrite !list_lookup_insert_eq; [done|by eapply lookup_lt_Some..].
  - rewrite !list_lookup_insert_ne by done. by apply Hs.
Qed.

Lemma second_pass_sim (g g' : list ascii) st st' i :
  g !! i = g' !! i → same_upto_5 st st' →
  result_rel same_upto_5 (second_pass g st i) (second_pass g' st' i).
Proof.
  intros Hg (Hres & Hrem & Hs). unfold second_pass, getitem, setitem.
  rewrite <- Hg, <- Hres, <- Hrem.
  destruct (ps_res st !! i) as [ri|]; simpl; [|done].
  case_bool_decide; simpl; [done|].
  destruct (g !! i) as [ch|]; simpl; [|done].
  repeat (case_bool_decide; simpl); done.
Qed.

Lemma list_ascii_of_substring (n : nat) (w : string) :
  list_ascii_of_string (substring 0 n w) = take n (list_ascii_of_string w).
Proof.
  revert w. induction n as [|n IH]; intros [|a w]; simpl; try done.
  by rewrite IH.
Qed.

(** [pattern_for] reads only the first five characters of each word. *)
Lemma pattern_for_prefix (guess solution : string) :
  pattern_for guess solution =
  pattern_for (substring 0 5 guess) (substring 0 5 solution).
Proof.
  unfold pattern_for. rewrite !list_ascii_of_substring.
  set (g := list_ascii_of_string guess). set (s := list_ascii_of_string solution).
  assert (Hg : ∀ i, i < 5 → g !! i = take 5 g !! i).
  { intros i Hi. by rewrite lookup_take_lt. }
  assert (Hin : ∀ i, i ∈ range 5 → i < 5).
  { intros i [_ Hi]%elem_of_seq. lia. }
  pose proof (for_in_sim same_upto_5 (range 5) (first_pass g) (first_pass (take 5 g))
    (pattern_init solution) (pattern_init (substring 0 5 solution))) as H1.
  assert (Hinit : same_upto_5 (pattern_init solution)
                              (pattern_init (substring 0 5 solution))).
  { repeat split; try done. intros j Hj. unfold pattern_init. simpl.
    rewrite list_ascii_of_substring. fold s.
    by rewrite !list_lookup_fmap, lookup_take_lt. }
  specialize (H1 Hinit).
  destruct (for_in (range 5) (first_pass g) (pattern_init solution)) as [st1|e1],
    (for_in (range 5) (first_pass (take 5 g))
       (pattern_init (substring 0 5 solution))) as [st1'|e1'].
  - rewrite !result_bind_Ok.
    pose proof (for_in_sim same_upto_5 (range 5) (second_pass g)
      (second_pass (take 5 g)) st1 st1') as H2.
    destruct (for_in (range 5) (second_pass g) st1) as [st2|e2],
      (for_in (range 5) (second_pass (take 5 g)) st1') as [st2'|e2'].
    + rewrite !result_bind_Ok. destruct H2 as (-> & _).
      * apply H1. intros; by apply first_pass_sim; auto.
      * intros; by apply second_pass_sim; auto.
      * done.
    + exfalso. apply H2.
      * apply H1. intros; by apply first_pass_sim; auto.
      * intros; by apply second_pass_sim; auto.
    + exfalso. apply H2.
      * apply H1. intros; by apply first_pass_sim; auto.
      * intros; by apply second_pass_sim; auto.
    + rewrite !result_bind_Raise. f_equal. apply H2.
      * apply H1. intros; by apply first_pass_sim; auto.
      * intros; by apply second_pass_sim; auto.
  - exfalso. apply H1. intros; by apply first_pass_sim; auto.
  - exfalso. apply H1. intros; by apply first_pass_sim; auto.
  - rewrite !result_bind_Raise. f_equal.
    apply H1. intros; by apply first_pass_sim; auto.
Qed.

(** ** The order of floats *)

(** What two comparisons in a row say about the outer pair. *)
Definition cmp_join (c1 c2 : comparison) : option comparison :=
  match c1, c2 with
  | Eq, c | c, Eq => Some c
  | Lt, Lt => Some Lt
  | Gt, Gt => Some Gt
  | _, _ => None
  end.

Ltac compare_cases :=
  repeat match goal with
    | |- context [PosDef.Pos.compare_cont Eq ?x ?y] =>
        change (PosDef.Pos.compare_cont Eq x y) with (Pos.compare x y)
    end;
  repeat match goal with
    | |- context [(?x ?= ?y)%Z] => destruct (Z.compare_spec x y)
    | |- context [(?x ?= ?y)%positive] => destruct (Pos.compare_spec x y)
    end.

Lemma SFcompare_join (a b c : float) c1 c2 c3 :
  SFcompare a b = Some c1 → SFcompare b c = Some c2 → cmp_join c1 c2 = Some c3 →
  SFcompare a c = Some c3.
Proof.
  destruct a as [sa|sa| |sa ma ea], b as [sb|sb| |sb mb eb], c as [sc|sc| |sc mc ec];
    simpl; try discriminate;
    repeat match goal with s : bool |- _ => destruct s end;
    intros [= <-] [= <-]; simpl; try discriminate; try (intros [= <-]; done).
  all: compare_cases; simpl; try (intros [= <-]); try done; try lia.
Qed.

Lemma SFcompare_opp (a b : float) : SFcompare b a = CompOpp <$> SFcompare a b.
Proof.
  destruct a as [sa|sa| |sa ma ea], b as [sb|sb| |sb mb eb]; simpl; try done;
    repeat match goal with s : bool |- _ => destruct s end; simpl; try done.
  all: compare_cases; simpl; try reflexivity; lia.
Qed.

Lemma float_lt_spec a b : float_lt a b = true ↔ SFcompare a b = Some Lt.
Proof.
  unfold float_lt, SFltb. destruct (SFcompare a b) as [[]|]; intuition congruence.
Qed.

Lemma float_gt_spec a b : float_gt a b = true ↔ SFcompare b a = Some Lt.
Proof. apply float_lt_spec. Qed.

Lemma float_eq_spec a b : float_eq a b = true ↔ SFcompare a b = Some Eq.
Proof.
  unfold float_eq, SFeqb. destruct (SFcompare a b) as [[]|]; intuition congruence.
Qed.

Lemma float_le_spec a b :
  float_le a b = true ↔ SFcompare a b = Some Lt ∨ SFcompare a b = Some Eq.
Proof.
  unfold float_le, SFleb. destruct (SFcompare a b) as [[]|]; intuition congruence.
Qed.

(** A non-negative float lies above the initial best score [-1.0]. *)
Lemma float_nonneg_above_init e :
  float_le float_zero e = true → SFcompare float_minus_one e = Some Lt.
Proof.
  intros [H|H]%float_le_spec;
    by eapply (SFcompare_join float_minus_one float_zero e).
Qed.

(** ** Sums of non-negative floats *)

Lemma nonneg_cases (x : float) :
  nonneg x ↔ (∃ s, x = S754_zero s) ∨ (∃ m e, x = S754_finite false m e)
             ∨ x = S754_infinity false.
Proof.
  unfold nonneg. destruct x as [s|[]| |[] m e]; cbn; split; try discriminate; eauto.
  all: intros [[s' H]|[(m' & e' & H)|H]]; discriminate.
Qed.

Lemma iter_pos_preserves {A : Type} (P : A → Prop) (f : A → A) :
  (∀ x, P x → P (f x)) → ∀ p x, P x → P (SpecFloat.iter_pos f p x).
Proof.
  intros Hf. induction p as [p IH|p IH|]; intros x Hx; simpl; auto.
Qed.

Lemma shr_1_nonneg mrs : (0 ≤ shr_m mrs)%Z → (0 ≤ shr_m (shr_1 mrs))%Z.
Proof. destruct mrs as [[|[p|p|]|[p|p|]] r s]; simpl; lia. Qed.

Lemma shr_fexp_nonneg m e l :
  (0 ≤ m)%Z → (0 ≤ shr_m (shr_fexp prec emax m e l).1)%Z.
Proof.
  intros Hm. unfold shr_fexp, shr.
  assert (H0 : (0 ≤ shr_m (shr_record_of_loc m l))%Z).
  { by destruct l as [|[]]. }
  destruct (fexp prec emax (Zdigits2 m + e) - e)%Z; simpl; try done.
  by apply iter_pos_preserves; [apply shr_1_nonneg|].
Qed.

(** Rounding a non-negative mantissa gives a non-negative number, never
    NaN. *)
Lemma binary_round_aux_nonneg m e l :
  (0 ≤ m)%Z → nonneg (binary_round_aux prec emax false m e l).
Proof.
  intros Hm. unfold binary_round_aux.
  pose proof (shr_fexp_nonneg m e l Hm) as H1.
  destruct (shr_fexp prec emax m e l) as [mrs' e']. simpl in H1.
  assert (H2 : (0 ≤ round_nearest_even (shr_m mrs') (loc_of_shr_record mrs'))%Z).
  { unfold round_nearest_even.
    destruct (loc_of_shr_record mrs') as [|[]]; try done; [|lia].
    destruct (Z.even (shr_m mrs')); lia. }
  pose proof (shr_fexp_nonneg _ e' loc_Exact H2) as H3.
  destruct (shr_fexp prec emax _ e' loc_Exact) as [mrs'' e'']. simpl in H3.
  destruct (shr_m mrs'') as [|p|p]; [done| |lia].
  by destruct (e'' <=? emax - prec)%Z.
Qed.

Lemma float_add_nonneg a b : nonneg a → nonneg b → nonneg (float_add a b).
Proof.
  intros [[sa ->]|[(ma & ea & ->)| ->]]%nonneg_cases
         [[sb ->]|[(mb & eb & ->)| ->]]%nonneg_cases; try done.
  - by destruct sa, sb.
  - unfold float_add, SFadd. simpl.
    destruct (shl_align ma ea (Z.min ea eb)) as [ma' ?],
             (shl_align mb eb (Z.min ea eb)) as [mb' ?]. simpl.
    unfold binary_round.
    destruct (shl_align _ _ _) as [mz ez]. by apply binary_round_aux_nonneg.
Qed.

(** ** Buckets and the entropy sum *)

(** The sum of the bucket sizes. *)
Definition bucket_total (buckets : list (string * Z)) : Z :=
  foldr (λ kv acc, (kv.2 + acc)%Z) 0%Z buckets.

Lemma bucket_incr_total buckets key :
  bucket_total (bucket_incr buckets key) = (bucket_total buckets + 1)%Z.
Proof.
  induction buckets as [|[k v] rest IH]; simpl; [done|].
  case_decide; simpl; [lia|]. rewrite IH. lia.
Qed.

Lemma bucket_incr_positive buckets key :
  Forall (λ kv, (1 ≤ kv.2)%Z) buckets →
  Forall (λ kv, (1 ≤ kv.2)%Z) (bucket_incr buckets key).
Proof.
  induction 1 as [|[k v] rest Hv Hrest IH]; simpl.
  - by repeat constructor.
  - case_decide; constructor; simpl in *; try done; lia.
Qed.

Lemma bucket_value_bounds buckets kv :
  Forall (λ kv, (1 ≤ kv.2)%Z) buckets → kv ∈ buckets →
  (1 ≤ kv.2 ≤ bucket_total buckets)%Z.
Proof.
  induction 1 as [|kv' rest Hv Hrest IH]; [by intros ?%elem_of_nil|].
  assert (0 ≤ bucket_total rest)%Z.
  { clear IH. induction Hrest as [|? ? ? ? IH']; simpl in *; lia. }
  intros [->|Hin]%elem_of_cons; simpl; [lia|]. specialize (IH Hin). lia.
Qed.

Lemma buckets_run guess cands acc :
  String.length guess = 5 → words cands →
  Forall (λ kv, (1 ≤ kv.2)%Z) acc →
  ∃ buckets,
    for_in cands
      (λ buckets sol, p ← pattern_for guess sol; Ok (bucket_incr buckets p)) acc
    = Ok buckets
    ∧ Forall (λ kv, (1 ≤ kv.2)%Z) buckets
    ∧ bucket_total buckets = (bucket_total acc + Z.of_nat (length cands))%Z.
Proof.
  intros Hg Hall. revert acc.
  induction Hall as [|w cands Hw Hall IH]; intros acc Hacc.
  - exists acc. repeat split; [done|]. simpl. lia.
  - cbn [for_in]. destruct (pattern_for_returns guess w Hg Hw) as (p & Hp).
    rewrite Hp, !result_bind_Ok.
    destruct (IH (bucket_incr acc p)) as (buckets & Hrun & Hpos & Htot).
    { by apply bucket_incr_positive. }
    exists buckets. repeat split; [done..|].
    rewrite Htot, bucket_incr_total, length_cons. lia.
Qed.

Lemma entropy_sum_nonneg log2 n ks ent0 :
  nonneg ent0 → log2_fits log2 n → Forall (λ k, (1 ≤ k ≤ n)%Z) ks →
  ∃ e, for_in ks
         (λ ent k, p ← truediv k n; l ← log2 p;
                   Ok (float_add ent (float_mul (float_neg p) l))) ent0
       = Ok e ∧ nonneg e.
Proof.
  intros Hent0 Hlog2 Hks. revert ent0 Hent0.
  induction Hks as [|k ks Hk Hks IH]; intros ent0 Hent0; [by exists ent0|].
  cbn [for_in]. destruct (Hlog2 k Hk) as (p & y & Hp & Hy & Hterm).
  rewrite Hp, result_bind_Ok, Hy, !result_bind_Ok.
  apply IH. by apply float_add_nonneg.
Qed.

(** On words, with a fitting [log2], the entropy is a non-negative
    number. *)
Lemma entropy_of_guess_nonneg log2 guess candidates :
  String.length guess = 5 → words candidates →
  log2_fits log2 (Z.of_nat (length candidates)) →
  ∃ e, entropy_of_guess log2 guess candidates = Ok e ∧ nonneg e.
Proof.
  intros Hg Hall Hlog2. unfold entropy_of_guess.
  destruct (buckets_run guess candidates [] Hg Hall) as (buckets & -> & Hpos & Htot);
    [constructor|].
  rewrite result_bind_Ok. apply entropy_sum_nonneg; [done..|].
  apply Forall_forall. intros k [kv [-> Hkv]]%list_elem_of_fmap.
  pose proof (bucket_value_bounds _ _ Hpos Hkv) as Hb.
  simpl in Htot. lia.
Qed.

(** ** The scan of [best_entropy_guess] *)

Lemma not_in_candidates_spec best_g candidates :
  not_in_candidates best_g candidates = true ↔
  ∀ b, best_g = Some b → b ∉ candidates.
Proof.
  destruct best_g as [b|]; simpl.
  - rewrite bool_decide_eq_true. naive_solver.
  - naive_solver.
Qed.

Lemma entropy_step_cases candidates best g e :
  (replaces candidates best g e ∧ entropy_step candidates best g e = (Some g, e))
  ∨ (¬ replaces candidates best g e ∧ entropy_step candidates best g e = best).
Proof.
  unfold replaces, entropy_step.
  destruct (float_gt e best.2) eqn:Hgt; simpl; [left; split; [by left|done]|].
  destruct (float_eq e best.2) eqn:Heq; simpl; [|right; intuition congruence].
  case_bool_decide as Hin; simpl; [|right; intuition congruence].
  destruct (not_in_candidates best.1 candidates) eqn:Hnot; simpl.
  - left. split; [|done]. right. by rewrite <- not_in_candidates_spec.
  - right. split; [|done]. rewrite <- not_in_candidates_spec, Hnot. intuition congruence.
Qed.

Section scan.
Variable candidates : list string.
Variable ent : string → float.

(** The pure fold that the loop computes when every entropy is [ent g]. *)
Definition scan_fold (pool : list string) (best : option string * float)
  : option string * float :=
  foldl (λ best g, entropy_step candidates best g (ent g)) best pool.

(** What holds of the running best after the words [seen]. *)
Definition scan_inv (seen : list string) (best : option string * float) : Prop :=
  match best.1 with
  | None => seen = [] ∧ best = best_init
  | Some b =>
      ∃ l1 l2, seen = l1 ++ b :: l2 ∧ best.2 = ent b ∧
        (∀ g, g ∈ l1 →
           SFcompare (ent g) (ent b) = Some Lt
           ∨ (SFcompare (ent g) (ent b) = Some Eq
              ∧ (g ∉ candidates) ∧ b ∈ candidates)) ∧
        (∀ g, g ∈ l2 →
           (SFcompare (ent g) (ent b) = Some Lt ∨ SFcompare (ent g) (ent b) = Some Eq)
           ∧ (SFcompare (ent g) (ent b) = Some Eq → g ∈ candidates → b ∈ candidates))
  end.

Lemma scan_inv_step seen best g :
  (∀ x, x ∈ seen ++ [g] → SFcompare float_minus_one (ent x) = Some Lt) →
  scan_inv seen best →
  scan_inv (seen ++ [g]) (entropy_step candidates best g (ent g)).
Proof.
  intros Hvalid Hinv. destruct best as [[b|] be]; unfold scan_inv in Hinv; simpl in Hinv.
  - destruct Hinv as (l1 & l2 & -> & -> & Hl1 & Hl2).
    assert (Hb : SFcompare float_minus_one (ent b) = Some Lt).
    { apply Hvalid. rewrite !elem_of_app, elem_of_cons. auto. }
    assert (Hg : SFcompare float_minus_one (ent g) = Some Lt).
    { apply Hvalid. rewrite elem_of_app, list_elem_of_singleton. auto. }
    destruct (SFcompare (ent g) (ent b)) as [c|] eqn:Hgb; last first.
    { destruct (ent g), (ent b); simpl in *; discriminate. }
    pose proof (SFcompare_opp (ent g) (ent b)) as Hbg. rewrite Hgb in Hbg.
    simpl in Hbg.
    destruct (entropy_step_cases candidates (Some b, ent b) g (ent g))
      as [[Hr ->]|[Hr ->]].
    + unfold scan_inv. simpl.
      exists (l1 ++ b :: l2), []. split; [done|]. split; [done|].
      split; [|intros x Hx; set_solver].
      destruct Hr as [Hgt|(Heq & Hin & Hnot)]; simpl in *.
      * apply float_gt_spec in Hgt.
        intros x [Hx|[->|Hx]%elem_of_cons]%elem_of_app; left.
        -- destruct (Hl1 x Hx) as [Hlt|(Hxeq & _)];
             by eapply (SFcompare_join (ent x) (ent b) (ent g)).
        -- done.
        -- destruct (Hl2 x Hx) as [[Hlt|Hxeq] _];
             by eapply (SFcompare_join (ent x) (ent b) (ent g)).
      * apply float_eq_spec in Heq. specialize (Hnot b eq_refl).
        assert (c = Eq) as -> by congruence. simpl in Hbg.
        intros x [Hx|[->|Hx]%elem_of_cons]%elem_of_app.
        -- destruct (Hl1 x Hx) as [Hlt|(_ & _ & Hb_in)]; [|done].
           left. by eapply (SFcompare_join (ent x) (ent b) (ent g)).
        -- by right.
        -- destruct (Hl2 x Hx) as [[Hlt|Hxeq] Himp].
           ++ left. by eapply (SFcompare_join (ent x) (ent b) (ent g)).
           ++ right. split; [by eapply (SFcompare_join (ent x) (ent b) (ent g))|].
              split; [|done]. intros Hx_in. apply Hnot. by apply Himp.
    + unfold scan_inv. simpl.
      exists l1, (l2 ++ [g]). split; [by rewrite <- app_assoc|]. split; [done|].
      split; [done|].
      intros x [Hx|Hx%list_elem_of_singleton]%elem_of_app; [by apply Hl2|subst x].
      unfold replaces in Hr. simpl in Hr.
      rewrite float_gt_spec, float_eq_spec in Hr. rewrite Hgb.
      destruct c; simpl in Hbg.
      * split; [by right|]. intros _ Hin.
        destruct (decide (b ∈ candidates)) as [|Hb_out]; [done|].
        exfalso. apply Hr. right. split; [done|]. split; [done|].
        by intros b0 [= <-].
      * split; [by left|]. discriminate.
      * exfalso. apply Hr. by left.
  - destruct Hinv as [-> [= ->]].
    assert (Hg : SFcompare float_minus_one (ent g) = Some Lt).
    { apply Hvalid. set_solver. }
    destruct (entropy_step_cases candidates (None, float_minus_one) g (ent g))
      as [[Hr ->]|[Hr ->]].
    + unfold scan_inv. simpl. exists [], []. set_solver.
    + exfalso. apply Hr. left. by apply float_gt_spec.
Qed.
End scan.

Lemma scan_fold_inv candidates ent pool :
  (∀ x, x ∈ pool → SFcompare float_minus_one (ent x) = Some Lt) →
  scan_inv candidates ent pool (scan_fold candidates ent pool best_init).
Proof.
  induction pool as [|g pool IH] using rev_ind; intros Hvalid; [done|].
  unfold scan_fold. rewrite foldl_app. simpl.
  apply scan_inv_step; [done|]. apply IH. intros x Hx. apply Hvalid. set_solver.
Qed.

Lemma best_entropy_scan_fold log2 candidates ent pool best :
  (∀ g, g ∈ pool → entropy_of_guess log2 g candidates = Ok (ent g)) →
  best_entropy_scan log2 candidates pool best = Ok (scan_fold candidates ent pool best).
Proof.
  revert best. induction pool as [|g pool IH]; intros best Hent; [done|].
  unfold best_entropy_scan. cbn [for_in].
  rewrite (Hent g) by left. rewrite !result_bind_Ok.
  apply IH. intros x Hx. apply Hent. by right.
Qed.

Lemma best_entropy_scan_snoc log2 candidates seen g best :
  best_entropy_scan log2 candidates (seen ++ [g]) best =
  best' ← best_entropy_scan log2 candidates seen best;
  e ← entropy_of_guess log2 g candidates;
  Ok (entropy_step candidates best' g e).
Proof.
  unfold best_entropy_scan. rewrite for_in_app.
  destruct (for_in seen _ best) as [best'|err]; [|done].
  rewrite !result_bind_Ok. cbn [for_in].
  by destruct (entropy_of_guess log2 g candidates).
Qed.

Lemma best_entropy_scan_member log2 candidates pool best g e :
  best_entropy_scan log2 candidates pool best = Ok (Some g, e) →
  g ∈ pool ∨ best.1 = Some g.
Proof.
  revert best. induction pool as [|x pool IH]; intros best.
  - intros [= ->]. by right.
  - unfold best_entropy_scan. cbn [for_in].
    destruct (entropy_of_guess log2 x candidates) as [ex|err]; [|done].
    rewrite result_bind_Ok. intros Hrun.
    destruct (IH _ Hrun) as [Hin|Hbest]; [left; by right|].
    destruct (entropy_step_cases candidates best x ex) as [[_ Heq]|[_ Heq]];
      rewrite Heq in Hbest.
    + injection Hbest as ->. left. by left.
    + by right.
Qed.

Lemma best_entropy_guess_unfold log2 candidates allowed :
  best_entropy_guess log2 candidates allowed =
  best_entropy_scan log2 candidates (chosen_pool candidates allowed) best_init.
Proof. reflexivity. Qed.

Lemma best_entropy_scan_winner log2 candidates pool :
  pool ≠ [] →
  (∀ g, g ∈ pool → ∃ e, entropy_of_guess log2 g candidates = Ok e
                        ∧ float_le float_zero e = true) →
  ∃ b be, best_entropy_scan log2 candidates pool best_init = Ok (Some b, be)
          ∧ scan_winner log2 candidates pool b be.
Proof.
  intros Hne Hent.
  set (ent := λ g, match entropy_of_guess log2 g candidates with
                   | Ok e => e
                   | Raise _ => float_zero
                   end).
  assert (Hent' : ∀ g, g ∈ pool → entropy_of_guess log2 g candidates = Ok (ent g)).
  { intros g Hg. destruct (Hent g Hg) as (e & He & _). unfold ent. by rewrite He. }
  assert (Hvalid : ∀ g, g ∈ pool → SFcompare float_minus_one (ent g) = Some Lt).
  { intros g Hg. destruct (Hent g Hg) as (e & He & Hpos). unfold ent. rewrite He.
    by apply float_nonneg_above_init. }
  rewrite (best_entropy_scan_fold _ _ ent) by done.
  pose proof (scan_fold_inv candidates ent pool Hvalid) as Hinv.
  destruct (scan_fold candidates ent pool best_init) as [[b|] be];
    unfold scan_inv in Hinv; simpl in Hinv; [|by destruct Hinv].
  destruct Hinv as (l1 & l2 & Hpool & -> & Hl1 & Hl2).
  assert (Hb : b ∈ pool).
  { rewrite Hpool, elem_of_app, elem_of_cons. auto. }
  assert (Hbb : SFcompare (ent b) (ent b) = Some Eq).
  { pose proof (Hvalid b Hb) as Hv.
    destruct (ent b) as [[]|[]| |[] m e]; simpl in *; try done.
    all: compare_cases; try done; lia. }
  exists b, (ent b). split; [done|]. split; [by apply Hent'|].
  assert (Hcases : ∀ g, g ∈ pool → g ∈ l1 ∨ g = b ∨ g ∈ l2).
  { intros g. rewrite Hpool. set_solver. }
  split; [|split].
  - intros g e Hg He. rewrite (Hent' g Hg) in He. injection He as <-.
    apply float_le_spec.
    destruct (Hcases g Hg) as [Hin|[->|Hin]].
    + destruct (Hl1 g Hin) as [?|(? & _)]; auto.
    + by right.
    + by destruct (Hl2 g Hin) as [[?|?] _]; auto.
  - intros g e Hg He Heq Hmem. rewrite (Hent' g Hg) in He. injection He as <-.
    apply float_eq_spec in Heq.
    destruct (Hcases g Hg) as [Hin|[->|Hin]].
    + destruct (Hl1 g Hin) as [Hlt|(_ & _ & ?)]; [congruence|done].
    + done.
    + destruct (Hl2 g Hin) as [_ Himp]. by apply Himp.
  - exists l1, l2. split; [done|].
    intros g e Hg He.
    assert (Hg' : g ∈ pool) by (rewrite Hpool, elem_of_app; auto).
    rewrite (Hent' g Hg') in He. injection He as <-.
    rewrite float_lt_spec, float_eq_spec. by apply Hl1.
Qed.

(** ** Filtering *)

Lemma filter_candidates_acc (cands acc : list string) (guess pat : string) :
  String.length guess = 5 → words cands →
  for_in cands
    (λ acc w, b ← consistent_with guess pat w;
              Ok (if b : bool then acc ++ [w] else acc)) acc
  = Ok (acc ++ filter (λ w, pattern_for guess w = Ok pat) cands).
Proof.
  intros Hg Hall. revert acc.
  induction Hall as [|w cands Hw Hall IH]; intros acc.
  - by rewrite app_nil_r.
  - cbn [for_in]. unfold consistent_with.
    destruct (pattern_for_returns guess w Hg Hw) as (p & Hp).
    rewrite Hp, !result_bind_Ok, IH, filter_cons, Hp.
    case_bool_decide as Heq; case_decide as Heq'; simplify_eq; try done.
    by rewrite <- app_assoc.
Qed.

(** ** Searching a pool *)

Lemma log2_fits_check_ok log2 (n : nat) :
  log2_fits_check log2 n = true → log2_fits log2 (Z.of_nat n).
Proof.
  unfold log2_fits_check. rewrite forallb_forall. intros Hall k Hk.
  specialize (Hall (Z.to_nat k)). rewrite Z2Nat.id in Hall by lia.
  assert (Hin : In (Z.to_nat k) (seq 1 n)) by (apply in_seq; lia).
  specialize (Hall Hin).
  destruct (truediv k (Z.of_nat n)) as [p|] eqn:Hp; [|done].
  destruct (log2 p) as [y|] eqn:Hy; [|done].
  by exists p, y.
Qed.

Lemma best_entropy_scan_searched log2 candidates pool :
  words candidates → words pool →
  log2_fits log2 (Z.of_nat (length candidates)) →
  searched log2 candidates pool
    (best_entropy_scan log2 candidates pool best_init).
Proof.
  intros Hc Hp Hlog2.
  assert (Hscore : ∀ g, g ∈ pool →
            ∃ e, entropy_of_guess log2 g candidates = Ok e
                 ∧ float_le float_zero e = true).
  { intros g Hg. apply entropy_of_guess_nonneg; [|done..].
    unfold words in Hp. rewrite Forall_forall in Hp. by apply Hp. }
  destruct pool as [|g0 pool0] eqn:Epool; [by left|]. rewrite <- Epool in *.
  assert (Hne : pool ≠ []) by (by rewrite Epool).
  destruct (best_entropy_scan_winner log2 candidates pool Hne Hscore)
    as (b & be & Hrun & Hb & Hmax & _ & (l1 & l2 & Hsplit & _)).
  right. exists b, be. split; [done|]. split.
  - rewrite Hsplit. apply elem_of_app. right. by left.
  - split; [done|]. intros g Hg. destruct (Hscore g Hg) as (e & He & _).
    exists e. split; [done|]. by apply (Hmax g e).
Qed.

(** * The claims *)

(** ** The feedback pattern *)

(** C1: for a guess and a solution of length 5, [pattern_for] returns a
    pattern that marks position [i] Correct exactly when
    [guess[i] == solution[i]], whose Correct and Present marks for any
    letter together never exceed that letter's count in the solution, and
    whose Present marks for a letter are capped by (and fill) what the
    solution has left of it after the Correct matches are removed. *)
Theorem pattern_for_duplicate_letter_rule (guess solution : string) :
  String.length guess = 5 → String.length solution = 5 →
  ∃ p, pattern_for guess solution = Ok p ∧ duplicate_letter_rule guess solution p.
Proof.
  intros Hg Hs.
  destruct (pattern_for_run guess solution) as (st & Hrun & Hinv);
    [rewrite length_list_ascii_of_string; lia..|].
  eexists; split; [exact Hrun|].
  unfold duplicate_letter_rule. rewrite list_ascii_of_string_of_list_ascii.
  set (g := list_ascii_of_string guess). set (s := list_ascii_of_string solution).
  assert (Hc : ∀ i, i < 5 → ps_res st !! i = Some Correct ↔ g !! i = s !! i).
  { intros i Hi. by apply second_inv_correct_iff. }
  assert (Hmin := si_min _ _ _ _ Hinv). fold g s in Hmin.
  split; [done|]. split; [|done].
  intros c. rewrite (Hmin c).
  assert (Hcorrect : count_below 5 (marked Correct g (ps_res st) c) =
                     count_below 5 (λ j, occurs s c j && hit g s j)).
  { apply count_below_ext. intros j Hj. unfold marked, occurs, hit.
    rewrite (bool_decide_ext _ _ (Hc j Hj)).
    destruct (decide (g !! j = s !! j)) as [Heq|Hne].
    - by rewrite Heq.
    - by rewrite (bool_decide_eq_false_2 _ Hne), !andb_false_r. }
  rewrite Hcorrect.
  rewrite (count_below_split 5 (occurs s c)
             (λ j, occurs s c j && hit g s j) (unmatched g s c)).
  - lia.
  - intros j _. unfold unmatched, occurs.
    by destruct (bool_decide (s !! j = Some c)), (hit g s j).
  - intros j _. unfold unmatched, occurs.
    by destruct (bool_decide (s !! j = Some c)), (hit g s j).
Qed.

Lemma pattern_for_duplicate_letter_rule_witness :
  ∃ p, pattern_for "sassy" "class" = Ok p ∧ duplicate_letter_rule "sassy" "class" p.
Proof.
  exact (pattern_for_duplicate_letter_rule "sassy" "class" eq_refl eq_refl).
Defined.

(** C8: for every word [w] of length 5, [pattern_for w w] is the
    all-Correct pattern. *)
Theorem pattern_for_self (w : string) :
  String.length w = 5 → pattern_for w w = Ok "CCCCC"%string.
Proof.
  intros Hw.
  destruct (pattern_for_run w w) as (st & Hrun & Hinv);
    [rewrite length_list_ascii_of_string; lia..|].
  rewrite Hrun. f_equal.
  assert (Hres : ps_res st = replicate 5 Correct).
  { apply list_eq. intros j. destruct (decide (j < 5)) as [Hj|Hj].
    - rewrite lookup_replicate_2 by done.
      apply (si_hit _ _ _ _ Hinv); [done|]. by apply bool_decide_eq_true.
    - rewrite !lookup_ge_None_2; [done|rewrite length_replicate; lia|].
      rewrite (si_len _ _ _ _ Hinv). lia. }
  by rewrite Hres.
Qed.

Lemma pattern_for_self_witness : pattern_for "crane" "crane" = Ok "CCCCC"%string.
Proof. exact (pattern_for_self "crane" eq_refl). Defined.

(** C9: for a guess and a solution of length 5, the pattern returned by
    [pattern_for] has length exactly 5 and each of its symbols is one of
    C, P, N. *)
Theorem pattern_for_shape (guess solution : string) :
  String.length guess = 5 → String.length solution = 5 →
  ∃ p, pattern_for guess solution = Ok p ∧ String.length p = 5 ∧ three_symbols p.
Proof.
  intros Hg Hs.
  destruct (pattern_for_run guess solution) as (st & Hrun & Hinv);
    [rewrite length_list_ascii_of_string; lia..|].
  eexists; split; [exact Hrun|].
  rewrite <- length_list_ascii_of_string. unfold three_symbols.
  rewrite list_ascii_of_string_of_list_ascii.
  split; [apply (si_len _ _ _ _ Hinv)|].
  intros ch [j Hj]%list_elem_of_lookup.
  assert (j < 5) as Hj5.
  { rewrite <- (si_len _ _ _ _ Hinv). by eapply lookup_lt_Some. }
  destruct (hit (list_ascii_of_string guess) (list_ascii_of_string solution) j)
    eqn:Hhit.
  - rewrite (si_hit _ _ _ _ Hinv j Hj5 Hhit) in Hj. left. congruence.
  - destruct (si_lo _ _ _ _ Hinv j Hj5 Hhit) as [HP|HN].
    + right; left. congruence.
    + right; right. congruence.
Qed.

Lemma pattern_for_shape_witness :
  ∃ p, pattern_for "alert" "level" = Ok p ∧ String.length p = 5 ∧ three_symbols p.
Proof. exact (pattern_for_shape "alert" "level" eq_refl eq_refl). Defined.

(** A guess of six letters and a guess in capitals with a digit both get a
    pattern: nothing raises, the sixth letter is not looked at. *)
Lemma pattern_for_accepts_non_words :
  pattern_for "cranes" "crane" = Ok "CCCCC"%string
  ∧ pattern_for "CR4NE" "crane" = Ok "NNNNN"%string.
Proof. split; vm_compute; reflexivity. Qed.

(** C7, amended: [pattern_for] checks neither length nor alphabet. It
    raises, with [IndexError], exactly when the guess or the solution has
    fewer than 5 characters; on longer words it returns the pattern of
    their first five characters, whatever the characters are. *)
Theorem pattern_for_unchecked (guess solution : string) :
  (String.length guess < 5 ∨ String.length solution < 5 →
   pattern_for guess solution = Raise IndexError)
  ∧ (5 ≤ String.length guess → 5 ≤ String.length solution →
     ∃ p, pattern_for guess solution = Ok p
          ∧ pattern_for (substring 0 5 guess) (substring 0 5 solution) = Ok p
          ∧ String.length p = 5).
Proof.
  split.
  - intros Hshort. apply pattern_for_short_raises.
    by rewrite !length_list_ascii_of_string.
  - intros Hg Hs.
    destruct (pattern_for_run guess solution) as (st & Hrun & Hinv);
      [by rewrite length_list_ascii_of_string..|].
    eexists. split; [exact Hrun|]. split.
    + by rewrite <- pattern_for_prefix.
    + rewrite <- length_list_ascii_of_string, list_ascii_of_string_of_list_ascii.
      apply (si_len _ _ _ _ Hinv).
Qed.

Lemma pattern_for_unchecked_witness :
  pattern_for "cran" "grape" = Raise IndexError
  ∧ ∃ p, pattern_for "CRANES" "grapes" = Ok p
         ∧ pattern_for (substring 0 5 "CRANES") (substring 0 5 "grapes") = Ok p
         ∧ String.length p = 5.
Proof.
  split.
  - apply (proj1 (pattern_for_unchecked "cran" "grape")). left. simpl. lia.
  - apply (proj2 (pattern_for_unchecked "CRANES" "grapes")); simpl; lia.
Defined.

(** ** The candidate filter *)

(** C2: for candidates and a guess that are words of length 5 and any
    pattern, [filter_candidates] returns exactly the candidates [w] with
    [pattern_for guess w == pat], in their original order: every word of
    the result has that pattern, every candidate left out does not, and the
    result is a subsequence of the candidates. The candidates themselves are
    only read: the function's one output is the new list. *)
Theorem filter_candidates_exact (cands : list string) (guess pat : string) :
  String.length guess = 5 → words cands →
  ∃ r, filter_candidates cands guess pat = Ok r ∧
       r = filter (λ w, pattern_for guess w = Ok pat) cands ∧
       (∀ w, w ∈ r → pattern_for guess w = Ok pat) ∧
       (∀ w, w ∈ cands → w ∉ r → pattern_for guess w ≠ Ok pat) ∧
       sublist r cands.
Proof.
  intros Hg Hall. eexists. split.
  { unfold filter_candidates. by rewrite filter_candidates_acc. }
  simpl. split; [done|]. split; [|split].
  - by intros w [Hp _]%list_elem_of_filter.
  - intros w Hin Hout Hp. apply Hout. by apply list_elem_of_filter.
  - apply sublist_filter.
Qed.

Lemma filter_candidates_exact_witness :
  ∃ r, filter_candidates ["crane"; "slate"; "grape"]%string "crane" "NCCNC" = Ok r ∧
       r = filter (λ w, pattern_for "crane" w = Ok "NCCNC"%string)
             ["crane"; "slate"; "grape"]%string ∧
       (∀ w, w ∈ r → pattern_for "crane" w = Ok "NCCNC"%string) ∧
       (∀ w, w ∈ ["crane"; "slate"; "grape"]%string → w ∉ r →
             pattern_for "crane" w ≠ Ok "NCCNC"%string) ∧
       sublist r ["crane"; "slate"; "grape"]%string.
Proof.
  apply (filter_candidates_exact ["crane"; "slate"; "grape"]%string "crane" "NCCNC").
  - reflexivity.
  - repeat constructor.
Defined.

(** ** Entropy and the best guess *)

(** C10: on an empty candidate sequence [entropy_of_guess] returns [0.0]
    for every guess, without raising: there is no bucket, so the division
    by [n = 0], which would raise, is never evaluated. *)
Theorem entropy_of_guess_empty (log2 : float → result float) (guess : string) :
  entropy_of_guess log2 guess [] = Ok float_zero
  ∧ ∀ k, truediv k (Z.of_nat (length ([] : list string))) = Raise ZeroDivisionError.
Proof. split; [reflexivity|]. intros k. reflexivity. Qed.

(** C4: [best_entropy_guess] scans [allowed] when there are more than 30
    candidates and the candidates themselves otherwise, so with exactly 31
    candidates it searches [allowed] and with exactly 30 only [candidates].
    For words: the result is that of the scan of the pool; it is a word of
    that pool whose entropy is the greatest of all the words of the pool
    (the initial pair when the pool is empty); and with at most 30
    candidates the result is the same whatever [allowed] is. *)
Theorem best_entropy_guess_pool (log2 : float → result float)
    (candidates allowed : list string) :
  words candidates → words allowed →
  log2_fits log2 (Z.of_nat (length candidates)) →
  (30 < length candidates →
   best_entropy_guess log2 candidates allowed
   = best_entropy_scan log2 candidates allowed best_init
   ∧ searched log2 candidates allowed
       (best_entropy_guess log2 candidates allowed))
  ∧ (length candidates ≤ 30 →
     best_entropy_guess log2 candidates allowed
     = best_entropy_scan log2 candidates candidates best_init
     ∧ searched log2 candidates candidates
         (best_entropy_guess log2 candidates allowed)
     ∧ ∀ allowed', best_entropy_guess log2 candidates allowed'
                   = best_entropy_guess log2 candidates allowed).
Proof.
  intros Hc Ha Hlog2. unfold best_entropy_guess. split; intros Hlen.
  - rewrite bool_decide_eq_true_2 by done. split; [done|].
    by apply best_entropy_scan_searched.
  - rewrite bool_decide_eq_false_2 by lia. split; [done|]. split.
    + by apply best_entropy_scan_searched.
    + done.
Qed.

Lemma best_entropy_guess_pool_witness :
  (best_entropy_guess log2_floor (take 31 FALLBACK) ["slate"%string]
   = best_entropy_scan log2_floor (take 31 FALLBACK) ["slate"%string] best_init
   ∧ searched log2_floor (take 31 FALLBACK) ["slate"%string]
       (best_entropy_guess log2_floor (take 31 FALLBACK) ["slate"%string]))
  ∧ (best_entropy_guess log2_floor (take 30 FALLBACK) ["slate"%string]
     = best_entropy_scan log2_floor (take 30 FALLBACK) (take 30 FALLBACK) best_init
     ∧ searched log2_floor (take 30 FALLBACK) (take 30 FALLBACK)
         (best_entropy_guess log2_floor (take 30 FALLBACK) ["slate"%string])
     ∧ ∀ allowed', best_entropy_guess log2_floor (take 30 FALLBACK) allowed'
                   = best_entropy_guess log2_floor (take 30 FALLBACK)
                       ["slate"%string]).
Proof.
  split.
  - apply (best_entropy_guess_pool log2_floor (take 31 FALLBACK) ["slate"%string]).
    + repeat constructor.
    + repeat constructor.
    + apply (log2_fits_check_ok log2_floor 31). vm_compute. reflexivity.
    + simpl. lia.
  - apply (best_entropy_guess_pool log2_floor (take 30 FALLBACK) ["slate"%string]).
    + repeat constructor.
    + repeat constructor.
    + apply (log2_fits_check_ok log2_floor 30). vm_compute. reflexivity.
    + simpl. lia.
Defined.

(** C5: the scan replaces the running best by a later guess exactly when
    that guess's entropy is strictly greater, or equal while the guess is a
    member of [candidates] and the running best is not. Hence, for words
    and a non-empty pool, the returned word has the greatest entropy of the
    pool, is a member of [candidates] whenever a word of greatest entropy
    is, and is the earliest such word of the pool. *)
Theorem best_entropy_guess_tie_break (log2 : float → result float)
    (candidates allowed : list string) :
  chosen_pool candidates allowed ≠ [] →
  words candidates → words (chosen_pool candidates allowed) →
  log2_fits log2 (Z.of_nat (length candidates)) →
  tie_break_rule log2 candidates allowed.
Proof.
  intros Hne Hcands Hpool Hlog2. split; [|split].
  - intros best g e.
    destruct (entropy_step_cases candidates best g e) as [[Hr ->]|[Hr ->]];
      by split.
  - intros seen g best. apply best_entropy_scan_snoc.
  - rewrite best_entropy_guess_unfold. apply best_entropy_scan_winner; [done|].
    intros g Hg. apply entropy_of_guess_nonneg; [|done..].
    unfold words in Hpool. rewrite Forall_forall in Hpool. by apply Hpool.
Qed.

Lemma best_entropy_guess_tie_break_witness :
  tie_break_rule log2_floor ["crane"; "slate"]%string ["adieu"%string].
Proof.
  apply (best_entropy_guess_tie_break log2_floor ["crane"; "slate"]%string
           ["adieu"%string]).
  - discriminate.
  - repeat constructor.
  - repeat constructor.
  - intros k Hk. assert (k = 1 ∨ k = 2)%Z as [-> | ->] by (simpl in Hk; lia);
      (eexists _, _; repeat split; vm_compute; reflexivity).
Defined.

(** C6, amended: ranking an empty set raises nothing.
    [best_likelihood_guess] on no candidates returns the initial pair
    [(None, -1.0)], and so does [best_entropy_guess] whenever the pool it
    scans is empty. *)
Theorem empty_pool_returns_init (log2 : float → result float)
    (candidates allowed : list string) :
  chosen_pool candidates allowed = [] →
  best_likelihood_guess [] = Ok best_init
  ∧ best_entropy_guess log2 candidates allowed = Ok best_init.
Proof.
  intros Hpool. split; [reflexivity|].
  by rewrite best_entropy_guess_unfold, Hpool.
Qed.

Lemma empty_pool_returns_init_witness :
  best_likelihood_guess [] = Ok best_init
  ∧ best_entropy_guess log2_floor [] ["crane"%string] = Ok best_init.
Proof. exact (empty_pool_returns_init log2_floor [] ["crane"%string] eq_refl). Defined.

(** With no candidates both scans return [(None, -1.0)] instead of
    failing. *)
Lemma empty_input_not_raised :
  best_likelihood_guess [] = Ok (None, float_minus_one)
  ∧ best_entropy_guess log2_floor [] [] = Ok (None, float_minus_one).
Proof. split; reflexivity. Qed.

(** * More of the program *)

(** ** More on patterns and filtering *)

Lemma string_of_list_ascii_inj (l1 l2 : list ascii) :
  string_of_list_ascii l1 = string_of_list_ascii l2 → l1 = l2.
Proof.
  intros Heq. by rewrite <- (list_ascii_of_string_of_list_ascii l1), Heq,
    list_ascii_of_string_of_list_ascii.
Qed.

Lemma list_ascii_of_string_inj (w1 w2 : string) :
  list_ascii_of_string w1 = list_ascii_of_string w2 → w1 = w2.
Proof.
  intros Heq. by rewrite <- (string_of_list_ascii_of_string w1), Heq,
    string_of_list_ascii_of_string.
Qed.

Lemma second_inv_all_correct guess solution st :
  second_inv guess solution 5 st →
  ps_res st = replicate 5 Correct ↔
  ∀ j, j < 5 → list_ascii_of_string guess !! j = list_ascii_of_string solution !! j.
Proof.
  intros Hinv. split.
  - intros Hres j Hj. apply (second_inv_correct_iff _ _ _ _ Hinv Hj).
    rewrite Hres. by apply lookup_replicate_2.
  - intros Hall. apply list_eq. intros j. destruct (decide (j < 5)) as [Hj|Hj].
    + rewrite lookup_replicate_2 by done.
      apply (second_inv_correct_iff _ _ _ _ Hinv Hj). by apply Hall.
    + rewrite !lookup_ge_None_2; [done|rewrite length_replicate; lia|].
      rewrite (si_len _ _ _ _ Hinv). lia.
Qed.

Lemma pattern_for_solved_iff (guess solution : string) :
  String.length guess = 5 → String.length solution = 5 →
  pattern_for guess solution = Ok "CCCCC"%string ↔ guess = solution.
Proof.
  intros Hg Hs.
  destruct (pattern_for_run guess solution) as (st & Hrun & Hinv);
    [rewrite length_list_ascii_of_string; lia..|].
  rewrite Hrun.
  assert (Hres : Ok (string_of_list_ascii (ps_res st)) = Ok "CCCCC"%string
                 ↔ ps_res st = replicate 5 Correct).
  { split.
    - intros [= Heq]. by apply string_of_list_ascii_inj.
    - by intros ->. }
  rewrite Hres, (second_inv_all_correct _ _ _ Hinv). split.
  - intros Hall. apply list_ascii_of_string_inj, list_eq. intros j.
    destruct (decide (j < 5)) as [Hj|Hj]; [by apply Hall|].
    rewrite !lookup_ge_None_2; [done|rewrite length_list_ascii_of_string; lia..].
  - by intros ->.
Qed.

(** X1: for words of length 5, the pattern is all-Correct exactly when the
    guess is the solution. *)
Theorem pattern_for_all_correct_iff (guess solution : string) :
  String.length guess = 5 → String.length solution = 5 →
  pattern_for guess solution = Ok "CCCCC"%string ↔ guess = solution.
Proof. apply pattern_for_solved_iff. Qed.

Lemma pattern_for_all_correct_iff_witness :
  pattern_for "crane" "grape" = Ok "CCCCC"%string ↔ "crane"%string = "grape"%string.
Proof. exact (pattern_for_all_correct_iff "crane" "grape" eq_refl eq_refl). Defined.

Lemma count_below_pos n (φ : nat → bool) j :
  j < n → φ j = true → 1 ≤ count_below n φ.
Proof.
  induction n as [|n IH]; intros Hj Hφ; [lia|].
  rewrite count_below_S. destruct (decide (j = n)) as [->|Hne].
  - rewrite Hφ. lia.
  - specialize (IH ltac:(lia) Hφ). lia.
Qed.

Lemma count_below_zero n (φ : nat → bool) :
  (∀ j, j < n → φ j = false) → count_below n φ = 0.
Proof.
  induction n as [|n IH]; intros Hφ; [done|].
  rewrite count_below_S, IH by (intros; apply Hφ; lia).
  by rewrite Hφ by lia.
Qed.

(** X2: a letter of the guess that does not occur in the solution is
    marked Absent wherever it stands. *)
Theorem pattern_for_absent_letter (guess solution : string) (c : ascii) (i : nat) :
  String.length guess = 5 → String.length solution = 5 →
  list_ascii_of_string guess !! i = Some c →
  c ∉ list_ascii_of_string solution →
  ∃ p, pattern_for guess solution = Ok p
       ∧ list_ascii_of_string p !! i = Some Absent.
Proof.
  intros Hg Hs Hi Hc.
  destruct (pattern_for_run guess solution) as (st & Hrun & Hinv);
    [rewrite length_list_ascii_of_string; lia..|].
  eexists; split; [exact Hrun|]. rewrite list_ascii_of_string_of_list_ascii.
  set (g := list_ascii_of_string guess) in *.
  set (s := list_ascii_of_string solution) in *.
  assert (Hi5 : i < 5).
  { rewrite <- Hg, <- length_list_ascii_of_string. by eapply lookup_lt_Some. }
  assert (Hhit : hit g s i = false).
  { apply bool_decide_eq_false. rewrite Hi. intros Heq.
    apply Hc. eapply list_elem_of_lookup_2. by symmetry. }
  destruct (si_lo _ _ _ _ Hinv i Hi5 Hhit) as [HP|HN]; [|done].
  exfalso. pose proof (si_min _ _ _ _ Hinv c) as Hmin. fold g s in Hmin.
  assert (count_below 5 (unmatched g s c) = 0) as Hzero.
  { apply count_below_zero. intros j _. unfold unmatched.
    rewrite bool_decide_eq_false_2; [done|].
    intros Hj. apply Hc. by eapply list_elem_of_lookup_2. }
  assert (1 ≤ count_below 5 (marked Present g (ps_res st) c)).
  { apply (count_below_pos _ _ i); [done|]. unfold marked.
    by rewrite !bool_decide_eq_true_2. }
  lia.
Qed.

Lemma pattern_for_absent_letter_witness :
  ∃ p, pattern_for "crane" "grape" = Ok p
       ∧ list_ascii_of_string p !! 3 = Some Absent.
Proof.
  apply (pattern_for_absent_letter "crane" "grape" "n" 3); try reflexivity.
  intros Hin. repeat (apply elem_of_cons in Hin as [Hin|Hin]; [discriminate|]).
  by apply elem_of_nil in Hin.
Defined.

Lemma filter_candidates_filter (cands : list string) (guess pat : string) :
  String.length guess = 5 → words cands →
  filter_candidates cands guess pat
  = Ok (filter (λ w, pattern_for guess w = Ok pat) cands).
Proof.
  intros Hg Hall. unfold filter_candidates. by rewrite filter_candidates_acc.
Qed.

Lemma words_filter (P : string → Prop) `{∀ w, Decision (P w)} (ws : list string) :
  words ws → words (filter P ws).
Proof.
  unfold words. rewrite !Forall_forall. intros Hall w [_ Hw]%list_elem_of_filter.
  by apply Hall.
Qed.

(** X3: feedback computed from the true solution never eliminates it: if
    [sol] is a candidate and [pat] is its pattern for the guess, [sol] is
    in the filtered list. *)
Theorem filter_candidates_keeps_solution (cands : list string)
    (guess pat sol : string) :
  String.length guess = 5 → words cands →
  sol ∈ cands → pattern_for guess sol = Ok pat →
  ∃ r, filter_candidates cands guess pat = Ok r ∧ sol ∈ r.
Proof.
  intros Hg Hall Hin Hpat. eexists. split; [by apply filter_candidates_filter|].
  by apply list_elem_of_filter.
Qed.

Lemma filter_candidates_keeps_solution_witness :
  ∃ r, filter_candidates ["crane"; "slate"; "grape"]%string "crane" "NCCNC" = Ok r
       ∧ "grape"%string ∈ r.
Proof.
  apply (filter_candidates_keeps_solution ["crane"; "slate"; "grape"]%string
           "crane" "NCCNC" "grape").
  - reflexivity.
  - repeat constructor.
  - do 2 right. left.
  - vm_compute. reflexivity.
Defined.

(** X4: applying the same feedback twice filters no further. *)
Theorem filter_candidates_idempotent (cands : list string) (guess pat : string) :
  String.length guess = 5 → words cands →
  ∃ r, filter_candidates cands guess pat = Ok r
       ∧ filter_candidates r guess pat = Ok r.
Proof.
  intros Hg Hall. eexists. split; [by apply filter_candidates_filter|].
  rewrite filter_candidates_filter by (done || by apply words_filter).
  f_equal. rewrite list_filter_filter. apply list_filter_iff. tauto.
Qed.

Lemma filter_candidates_idempotent_witness :
  ∃ r, filter_candidates ["crane"; "slate"; "grape"]%string "crane" "NCCNC" = Ok r
       ∧ filter_candidates r "crane" "NCCNC" = Ok r.
Proof.
  apply (filter_candidates_idempotent ["crane"; "slate"; "grape"]%string
           "crane" "NCCNC").
  - reflexivity.
  - repeat constructor.
Defined.

(** X5: two feedbacks can be applied in either order: the remaining
    candidates are the same list. *)
Theorem filter_candidates_commute (cands : list string)
    (guess1 pat1 guess2 pat2 : string) :
  String.length guess1 = 5 → String.length guess2 = 5 → words cands →
  ∃ r1 r2 r, filter_candidates cands guess1 pat1 = Ok r1
             ∧ filter_candidates cands guess2 pat2 = Ok r2
             ∧ filter_candidates r1 guess2 pat2 = Ok r
             ∧ filter_candidates r2 guess1 pat1 = Ok r.
Proof.
  intros Hg1 Hg2 Hall. eexists _, _, _.
  split; [by apply filter_candidates_filter|].
  split; [by apply filter_candidates_filter|].
  rewrite !filter_candidates_filter by (done || by apply words_filter).
  split; [done|]. f_equal. rewrite !list_filter_filter.
  apply list_filter_iff. tauto.
Qed.

Lemma filter_candidates_commute_witness :
  ∃ r1 r2 r,
    filter_candidates ["crane"; "slate"; "grape"]%string "crane" "NCCNC" = Ok r1
    ∧ filter_candidates ["crane"; "slate"; "grape"]%string "slate" "NNCNC" = Ok r2
    ∧ filter_candidates r1 "slate" "NNCNC" = Ok r
    ∧ filter_candidates r2 "crane" "NCCNC" = Ok r.
Proof.
  apply (filter_candidates_commute ["crane"; "slate"; "grape"]%string
           "crane" "NCCNC" "slate" "NNCNC").
  - reflexivity.
  - reflexivity.
  - repeat constructor.
Defined.

(** X6: filtering by the all-Correct pattern leaves exactly the
    occurrences of the guess among the candidates. *)
Theorem filter_candidates_solved (cands : list string) (guess : string) :
  String.length guess = 5 → words cands →
  filter_candidates cands guess "CCCCC" = Ok (filter (λ w, w = guess) cands).
Proof.
  intros Hg Hall. rewrite filter_candidates_filter by done. f_equal.
  induction Hall as [|w cands Hw Hall IH]; [done|].
  rewrite !filter_cons, IH.
  pose proof (pattern_for_solved_iff guess w Hg Hw) as Hiff.
  destruct (decide (w = guess)) as [->|Hne].
  - by rewrite decide_True by (by apply Hiff).
  - rewrite decide_False; [done|]. intros Hp. apply Hne. symmetry. by apply Hiff.
Qed.

Lemma filter_candidates_solved_witness :
  filter_candidates ["crane"; "slate"; "grape"]%string "slate" "CCCCC"
  = Ok (filter (λ w, w = "slate"%string) ["crane"; "slate"; "grape"]%string).
Proof.
  apply (filter_candidates_solved ["crane"; "slate"; "grape"]%string "slate").
  - reflexivity.
  - repeat constructor.
Defined.

Lemma pattern_for_outcome (guess solution : string) :
  (5 ≤ String.length guess ∧ 5 ≤ String.length solution
   ∧ ∃ p, pattern_for guess solution = Ok p)
  ∨ ((String.length guess < 5 ∨ String.length solution < 5)
     ∧ pattern_for guess solution = Raise IndexError).
Proof.
  destruct (decide (5 ≤ String.length guess ∧ 5 ≤ String.length solution))
    as [[Hg Hs]|Hshort].
  - left. split; [done|]. split; [done|].
    destruct (pattern_for_run guess solution) as (st & Hrun & _);
      [by rewrite length_list_ascii_of_string..|].
    by eexists.
  - right. split; [lia|]. apply pattern_for_short_raises.
    rewrite !length_list_ascii_of_string. lia.
Qed.

(** The inputs on which some pattern computation of the filter raises. *)
Definition filter_raises (cands : list string) (guess : string) : Prop :=
  (cands ≠ [] ∧ String.length guess < 5)
  ∨ Exists (λ w, String.length w < 5) cands.

Lemma filter_candidates_outcome (cands acc : list string) (guess pat : string) :
  (filter_raises cands guess
   ∧ for_in cands
       (λ acc w, b ← consistent_with guess pat w;
                 Ok (if b : bool then acc ++ [w] else acc)) acc
     = Raise IndexError)
  ∨ (¬ filter_raises cands guess
     ∧ for_in cands
         (λ acc w, b ← consistent_with guess pat w;
                   Ok (if b : bool then acc ++ [w] else acc)) acc
       = Ok (acc ++ filter (λ w, pattern_for guess w = Ok pat) cands)).
Proof.
  revert acc. induction cands as [|w cands IH]; intros acc.
  - right. split; [|by rewrite app_nil_r].
    intros [[? _]|H%Exists_nil]; done.
  - cbn [for_in].
    destruct (pattern_for_outcome guess w) as [(Hg & Hw & p & Hp)|[Hshort Hp]].
    + assert (Hcw : consistent_with guess pat w = Ok (bool_decide (p = pat))).
      { unfold consistent_with. by rewrite Hp. }
      rewrite Hcw, !result_bind_Ok, filter_cons, Hp.
      assert (Hiff : filter_raises (w :: cands) guess ↔ filter_raises cands guess).
      { unfold filter_raises. rewrite Exists_cons. split.
        - intros [[_ ?]|[?|?]]; [lia|lia|by right].
        - intros [[_ ?]|?]; [lia|]. by do 2 right. }
      rewrite Hiff.
      destruct (IH (if bool_decide (p = pat) then acc ++ [w] else acc))
        as [[Hbad Hrun]|[Hgood Hrun]]; [by left|right].
      split; [done|]. rewrite Hrun. f_equal.
      case_bool_decide as Heq; case_decide as Heq'; simplify_eq; try done.
      by rewrite <- app_assoc.
    + assert (Hcw : consistent_with guess pat w = Raise IndexError).
      { unfold consistent_with. by rewrite Hp. }
      left. rewrite Hcw. split; [|done]. unfold filter_raises.
      destruct Hshort; [by left|]. right. by left.
Qed.

(** X7: [filter_candidates] validates nothing itself. It raises
    [IndexError] exactly when there is a candidate and the guess has fewer
    than 5 characters, or some candidate has fewer than 5; on all other
    inputs it returns the candidates whose pattern is [pat]. *)
Theorem filter_candidates_raises_iff (cands : list string) (guess pat : string) :
  (filter_candidates cands guess pat = Raise IndexError
   ↔ filter_raises cands guess)
  ∧ (¬ filter_raises cands guess →
     filter_candidates cands guess pat
     = Ok (filter (λ w, pattern_for guess w = Ok pat) cands)).
Proof.
  unfold filter_candidates.
  destruct (filter_candidates_outcome cands [] guess pat)
    as [[Hbad ->]|[Hgood ->]]; split; try done.
Qed.

Lemma filter_candidates_raises_iff_witness :
  filter_candidates ["crane"; "slat"]%string "crane" "NCCNC" = Raise IndexError
  ∧ filter_candidates ["cranes"; "grapes"]%string "crane!" "NCCNC"
    = Ok (filter (λ w, pattern_for "crane!" w = Ok "NCCNC"%string)
            ["cranes"; "grapes"]%string).
Proof.
  split.
  - apply (proj1 (filter_candidates_raises_iff ["crane"; "slat"]%string
                    "crane" "NCCNC")).
    right. right. left. simpl. lia.
  - apply (proj2 (filter_candidates_raises_iff ["cranes"; "grapes"]%string
                    "crane!" "NCCNC")).
    intros [[_ H]|H]; [simpl in H; lia|].
    repeat (apply Exists_cons in H as [H|H]; [simpl in H; lia|]).
    by apply Exists_nil in H.
Defined.

(** ** Positional letter frequencies *)

(** [pos_freq[i][c]] read without raising: 0 outside the table. *)
Definition pf_get (pos : list (gmap ascii Z)) (i : nat) (c : ascii) : Z :=
  match pos !! i with
  | Some cnt => counter_get cnt c
  | None => 0%Z
  end.

(** The number of words that have letter [c] at position [i]. *)
Definition letter_count (ws : list string) (i : nat) (c : ascii) : Z :=
  Z.of_nat (length (filter (λ w, list_ascii_of_string w !! i = Some c) ws)).

(** The loop body of [position_frequencies] over the letters of one word. *)
Definition pf_body (pos : list (gmap ascii Z)) (ich : nat * ascii)
  : result (list (gmap ascii Z)) :=
  let '(i, ch) := ich in
  c ← getitem pos i;
  setitem pos i (counter_add c ch 1).

Lemma position_frequencies_unfold (ws : list string) :
  position_frequencies ws =
  for_in ws (λ pos w, for_in (enumerate (list_ascii_of_string w)) pf_body pos)
    (replicate 5 (∅ : gmap ascii Z)).
Proof. reflexivity. Qed.

Lemma imap_offset_cons {A : Type} (k : nat) (x : A) (l : list A) :
  imap (λ i y, (k + i, y)) (x :: l) = (k, x) :: imap (λ i y, (S k + i, y)) l.
Proof.
  rewrite imap_cons. f_equal; [f_equal; lia|].
  apply imap_ext. intros i y _. simpl. f_equal. lia.
Qed.

Lemma pf_body_ok (pos : list (gmap ascii Z)) k x cnt :
  pos !! k = Some cnt → pf_body pos (k, x) = Ok (<[k := counter_add cnt x 1]> pos).
Proof.
  intros Hcnt. unfold pf_body. rewrite (getitem_Ok _ _ _ Hcnt), result_bind_Ok.
  apply setitem_Ok. by eapply lookup_lt_Some.
Qed.

Lemma letter_at_cons (x : ascii) (l : list ascii) (k i : nat) (c : ascii) :
  bool_decide (k ≤ i ∧ (x :: l) !! (i - k) = Some c) =
  if decide (i = k) then bool_decide (x = c)
  else bool_decide (S k ≤ i ∧ l !! (i - S k) = Some c).
Proof.
  destruct (decide (i = k)) as [->|Hne].
  - replace (k - k) with 0 by lia. apply bool_decide_ext. simpl.
    split; [by intros [_ [= ->]]|by intros ->].
  - destruct (decide (k ≤ i)) as [Hle|Hgt].
    + replace (i - k) with (S (i - S k)) by lia. apply bool_decide_ext. simpl.
      split; (intros [_ ?]; split; [lia|done]).
    + rewrite !bool_decide_eq_false_2; [done|lia..].
Qed.

Lemma pf_word_ok (l : list ascii) (k : nat) (pos : list (gmap ascii Z)) :
  length pos = 5 → k + length l ≤ 5 →
  ∃ pos', for_in (imap (λ i y, (k + i, y)) l) pf_body pos = Ok pos'
          ∧ length pos' = 5
          ∧ ∀ i c, pf_get pos' i c =
                   (pf_get pos i c
                    + (if bool_decide ((k ≤ i)%nat ∧ l !! (i - k)%nat = Some c)
                       then 1 else 0))%Z.
Proof.
  revert k pos. induction l as [|x l IH]; intros k pos Hlen Hk.
  - exists pos. repeat split; [done|]. intros i c.
    rewrite bool_decide_eq_false_2; [lia|]. intros [_ H]. by rewrite lookup_nil in H.
  - rewrite imap_offset_cons. cbn [for_in]. simpl in Hk.
    destruct (lookup_lt_is_Some_2 pos k ltac:(lia)) as [cnt Hcnt].
    rewrite (pf_body_ok _ _ _ _ Hcnt), result_bind_Ok.
    destruct (IH (S k) (<[k := counter_add cnt x 1]> pos)) as (pos' & Hrun & Hlen' & Hget).
    { by rewrite length_insert. }
    { lia. }
    exists pos'. split; [done|]. split; [done|].
    intros i c. rewrite Hget, letter_at_cons. unfold pf_get.
    destruct (decide (i = k)) as [->|Hne].
    + rewrite list_lookup_insert_eq by lia. rewrite counter_get_add, Hcnt.
      rewrite (bool_decide_eq_false_2 (S k ≤ k ∧ _)) by lia.
      case_decide; case_bool_decide; simplify_eq; try done; lia.
    + by rewrite list_lookup_insert_ne by done.
Qed.

Lemma pf_word_raises (l : list ascii) (k : nat) (pos : list (gmap ascii Z)) :
  length pos = 5 → k ≤ 5 → 5 < k + length l →
  for_in (imap (λ i y, (k + i, y)) l) pf_body pos = Raise IndexError.
Proof.
  revert k pos. induction l as [|x l IH]; intros k pos Hlen Hk Hlong.
  - simpl in Hlong. lia.
  - rewrite imap_offset_cons. cbn [for_in]. simpl in Hlong.
    destruct (decide (k = 5)) as [->|Hne].
    + unfold pf_body. by rewrite getitem_Raise by lia.
    + destruct (lookup_lt_is_Some_2 pos k ltac:(lia)) as [cnt Hcnt].
      rewrite (pf_body_ok _ _ _ _ Hcnt), result_bind_Ok.
      apply IH; [by rewrite length_insert|lia..].
Qed.

Lemma pf_get_empty i c : pf_get (replicate 5 (∅ : gmap ascii Z)) i c = 0%Z.
Proof.
  unfold pf_get. destruct (replicate 5 ∅ !! i) as [cnt|] eqn:Hi; [|done].
  apply lookup_replicate in Hi as [-> _]. apply counter_get_empty.
Qed.

Lemma letter_count_cons w ws i c :
  letter_count (w :: ws) i c =
  ((if bool_decide (list_ascii_of_string w !! i = Some c) then 1 else 0)
   + letter_count ws i c)%Z.
Proof.
  unfold letter_count. rewrite filter_cons.
  case_decide; case_bool_decide; try done; simpl; lia.
Qed.

Lemma position_frequencies_outcome (ws : list string) (pos : list (gmap ascii Z)) :
  length pos = 5 →
  (Exists (λ w, 5 < String.length w) ws
   ∧ for_in ws (λ pos w, for_in (enumerate (list_ascii_of_string w)) pf_body pos) pos
     = Raise IndexError)
  ∨ (Forall (λ w, String.length w ≤ 5) ws
     ∧ ∃ pos', for_in ws
                 (λ pos w, for_in (enumerate (list_ascii_of_string w)) pf_body pos) pos
               = Ok pos'
               ∧ length pos' = 5
               ∧ ∀ i c, pf_get pos' i c = (pf_get pos i c + letter_count ws i c)%Z).
Proof.
  revert pos. induction ws as [|w ws IH]; intros pos Hlen.
  - right. split; [constructor|]. exists pos. repeat split; [done|].
    intros i c. unfold letter_count. simpl. lia.
  - cbn [for_in]. unfold enumerate.
    destruct (decide (String.length w ≤ 5)) as [Hw|Hw].
    + destruct (pf_word_ok (list_ascii_of_string w) 0 pos Hlen)
        as (pos1 & Hrun1 & Hlen1 & Hget1).
      { rewrite length_list_ascii_of_string. lia. }
      simpl in Hrun1. rewrite Hrun1, result_bind_Ok.
      destruct (IH pos1 Hlen1) as [[Hbad Hrun]|(Hgood & pos' & Hrun & Hlen' & Hget)].
      * left. split; [by right|done].
      * right. split; [by constructor|]. exists pos'. repeat split; [done..|].
        intros i c. rewrite Hget, Hget1, letter_count_cons.
        replace (i - 0) with i by lia.
        rewrite (bool_decide_ext (0 ≤ i ∧ list_ascii_of_string w !! i = Some c)
                   (list_ascii_of_string w !! i = Some c)) by (split; [tauto|]; split; [lia|done]).
        lia.
    + left. split; [left; lia|].
      pose proof (pf_word_raises (list_ascii_of_string w) 0 pos Hlen) as Hr.
      simpl in Hr. rewrite Hr; [done|lia|].
      rewrite length_list_ascii_of_string. lia.
Qed.

(** X8: on words of at most 5 letters [position_frequencies] returns a
    table of 5 counters in which the count of letter [c] at position [i]
    is the number of words that have [c] at position [i]. *)
Theorem position_frequencies_counts (ws : list string) :
  Forall (λ w, String.length w ≤ 5) ws →
  ∃ pos, position_frequencies ws = Ok pos ∧ length pos = 5
         ∧ ∀ i c, pf_get pos i c = letter_count ws i c.
Proof.
  intros Hall. rewrite position_frequencies_unfold.
  destruct (position_frequencies_outcome ws (replicate 5 ∅))
    as [[Hbad _]|(_ & pos & Hrun & Hlen & Hget)]; [by rewrite length_replicate| |].
  - exfalso. apply Exists_exists in Hbad as (w & Hin & Hw).
    rewrite Forall_forall in Hall. specialize (Hall w Hin). lia.
  - exists pos. repeat split; [done..|]. intros i c. rewrite Hget, pf_get_empty. lia.
Qed.

Lemma position_frequencies_counts_witness :
  ∃ pos, position_frequencies ["crane"; "slate"; "ape"]%string = Ok pos
         ∧ length pos = 5
         ∧ ∀ i c, pf_get pos i c = letter_count ["crane"; "slate"; "ape"]%string i c.
Proof.
  apply (position_frequencies_counts ["crane"; "slate"; "ape"]%string).
  repeat constructor.
Defined.

(** X9: [position_frequencies] raises, with [IndexError], exactly when
    some word has more than 5 characters; shorter words are counted. *)
Theorem position_frequencies_raises_iff (ws : list string) :
  position_frequencies ws = Raise IndexError
  ↔ Exists (λ w, 5 < String.length w) ws.
Proof.
  rewrite position_frequencies_unfold.
  destruct (position_frequencies_outcome ws (replicate 5 ∅))
    as [[Hbad ->]|(Hgood & pos & -> & _)]; [by rewrite length_replicate| |].
  - done.
  - split; [discriminate|]. intros (w & Hin & Hw)%Exists_exists.
    rewrite Forall_forall in Hgood. specialize (Hgood w Hin). lia.
Qed.

(** ** The likelihood score *)

(** The loop body of [likelihood_score]. *)
Definition ls_body (pos_freq : list (gmap ascii Z))
  : float * gset ascii → nat * ascii → result (float * gset ascii) :=
  λ '(score, seen) '(i, ch),
    c ← getitem pos_freq i;
    Ok (float_add score (float_of_int (counter_get c ch)), {[ch]} ∪ seen).

(** The last statement of [likelihood_score]. *)
Definition ls_bonus (st : float * gset ascii) : float :=
  float_add st.1 (float_mul float_tenth (float_of_int (Z.of_nat (size st.2)))).

Lemma likelihood_score_unfold (word : string) (pos_freq : list (gmap ascii Z)) :
  likelihood_score word pos_freq =
  st ← for_in (enumerate (list_ascii_of_string word)) (ls_body pos_freq)
         (float_zero, ∅);
  Ok (ls_bonus st).
Proof.
  unfold likelihood_score, ls_bonus.
  match goal with |- ?X ≫= _ = _ => set (run := X) end.
  change (for_in (enumerate (list_ascii_of_string word)) (ls_body pos_freq)
            (float_zero, ∅)) with run.
  by destruct run as [[score seen]|e].
Qed.

Lemma ls_body_ok (pf : list (gmap ascii Z)) score seen k x cnt :
  pf !! k = Some cnt →
  ls_body pf (score, seen) (k, x)
  = Ok (float_add score (float_of_int (counter_get cnt x)), {[x]} ∪ seen).
Proof. intros Hcnt. cbn. by rewrite (getitem_Ok _ _ _ Hcnt).
Qed.

Lemma ls_body_raises (pf : list (gmap ascii Z)) st k x :
  length pf ≤ k → ls_body pf st (k, x) = Raise IndexError.
Proof. intros Hk. destruct st. cbn. by rewrite getitem_Raise.
Qed.

Lemma float_of_int_nonneg (z : Z) : (0 ≤ z)%Z → nonneg (float_of_int z).
Proof.
  intros Hz. unfold float_of_int, binary_normalize. destruct z as [|p|p]; [done| |lia].
  unfold binary_round. destruct (shl_align _ _ _) as [mz ez].
  by apply binary_round_aux_nonneg.
Qed.

Lemma float_mul_tenth_nonneg (b : float) :
  nonneg b → nonneg (float_mul float_tenth b).
Proof.
  intros [[s ->]|[(m & e & ->)| ->]]%nonneg_cases; [by destruct s| |done].
  unfold float_mul, float_tenth, SFmul. simpl. by apply binary_round_aux_nonneg.
Qed.

Lemma ls_bonus_nonneg st : nonneg st.1 → nonneg (ls_bonus st).
Proof.
  intros Hst. apply float_add_nonneg; [done|].
  apply float_mul_tenth_nonneg, float_of_int_nonneg. lia.
Qed.

Lemma ls_word_ok (pf : list (gmap ascii Z)) (l : list ascii) (k : nat) st :
  length pf = 5 → k + length l ≤ 5 →
  (∀ i c, (0 ≤ pf_get pf i c)%Z) → nonneg st.1 →
  ∃ st', for_in (imap (λ i y, (k + i, y)) l) (ls_body pf) st = Ok st'
         ∧ nonneg st'.1.
Proof.
  intros Hlen Hk Hpf. revert k st Hk.
  induction l as [|x l IH]; intros k [score seen] Hk Hst; [by eexists|].
  rewrite imap_offset_cons. cbn [for_in]. simpl in Hk.
  destruct (lookup_lt_is_Some_2 pf k ltac:(lia)) as [cnt Hcnt].
  rewrite (ls_body_ok _ _ _ _ _ _ Hcnt), !result_bind_Ok.
  apply IH; [lia|]. simpl. apply float_add_nonneg; [done|].
  apply float_of_int_nonneg. specialize (Hpf k x). unfold pf_get in Hpf.
  by rewrite Hcnt in Hpf.
Qed.

Lemma ls_word_returns (pf : list (gmap ascii Z)) (l : list ascii) (k : nat) st :
  length pf = 5 → k + length l ≤ 5 →
  ∃ st', for_in (imap (λ i y, (k + i, y)) l) (ls_body pf) st = Ok st'.
Proof.
  intros Hlen. revert k st.
  induction l as [|x l IH]; intros k [score seen] Hk; [by eexists|].
  rewrite imap_offset_cons. cbn [for_in]. simpl in Hk.
  destruct (lookup_lt_is_Some_2 pf k ltac:(lia)) as [cnt Hcnt].
  rewrite (ls_body_ok _ _ _ _ _ _ Hcnt), !result_bind_Ok.
  apply IH. lia.
Qed.

Lemma ls_word_raises (pf : list (gmap ascii Z)) (l : list ascii) (k : nat) st :
  length pf = 5 → k ≤ 5 → 5 < k + length l →
  for_in (imap (λ i y, (k + i, y)) l) (ls_body pf) st = Raise IndexError.
Proof.
  intros Hlen. revert k st.
  induction l as [|x l IH]; intros k [score seen] Hk Hlong; [simpl in Hlong; lia|].
  rewrite imap_offset_cons. cbn [for_in]. simpl in Hlong.
  destruct (decide (k = 5)) as [->|Hne].
  - by rewrite ls_body_raises by lia.
  - destruct (lookup_lt_is_Some_2 pf k ltac:(lia)) as [cnt Hcnt].
    rewrite (ls_body_ok _ _ _ _ _ _ Hcnt), !result_bind_Ok.
    apply IH; lia.
Qed.

Lemma likelihood_score_nonneg (word : string) (pf : list (gmap ascii Z)) :
  length pf = 5 → String.length word ≤ 5 →
  (∀ i c, (0 ≤ pf_get pf i c)%Z) →
  ∃ s, likelihood_score word pf = Ok s ∧ nonneg s.
Proof.
  intros Hlen Hw Hpf. rewrite likelihood_score_unfold. unfold enumerate.
  destruct (ls_word_ok pf (list_ascii_of_string word) 0 (float_zero, ∅))
    as (st & Hrun & Hst); [done|rewrite length_list_ascii_of_string; lia|done..|].
  simpl in Hrun. rewrite Hrun, result_bind_Ok. eexists. split; [done|].
  by apply ls_bonus_nonneg.
Qed.

(** X10: with the table that [position_frequencies] returned for some
    word list, [likelihood_score] raises [IndexError] exactly when the word
    has more than 5 characters. *)
Theorem likelihood_score_raises_iff (word : string) (ws : list string)
    (pf : list (gmap ascii Z)) :
  position_frequencies ws = Ok pf →
  likelihood_score word pf = Raise IndexError ↔ 5 < String.length word.
Proof.
  intros Hpf.
  assert (Hlen : length pf = 5).
  { rewrite position_frequencies_unfold in Hpf.
    destruct (position_frequencies_outcome ws (replicate 5 ∅) eq_refl)
      as [[_ Hr]|[_ (pos & Hr & Hl & _)]]; rewrite Hr in Hpf; [done|].
    by inversion Hpf; subst. }
  rewrite likelihood_score_unfold. unfold enumerate.
  destruct (decide (String.length word ≤ 5)) as [Hw|Hw].
  - split; [|lia].
    destruct (ls_word_returns pf (list_ascii_of_string word) 0 (float_zero, ∅))
      as [st Hrun]; [done|rewrite length_list_ascii_of_string; lia|].
    simpl in Hrun. by rewrite Hrun.
  - split; [lia|]. intros _.
    pose proof (ls_word_raises pf (list_ascii_of_string word) 0 (float_zero, ∅) Hlen)
      as Hr.
    simpl in Hr. rewrite Hr; [done|lia|].
    rewrite length_list_ascii_of_string. lia.
Qed.

Lemma likelihood_score_raises_iff_witness :
  ∃ pf, position_frequencies ["crane"; "slate"]%string = Ok pf
        ∧ (likelihood_score "cranes" pf = Raise IndexError
           ↔ 5 < String.length "cranes").
Proof.
  destruct (position_frequencies ["crane"; "slate"]%string) as [pf|e] eqn:E;
    [|vm_compute in E; discriminate].
  exists pf. split; [reflexivity|].
  exact (likelihood_score_raises_iff "cranes" ["crane"; "slate"]%string pf E).
Defined.

(** ** The most likely word *)

(** The test and assignment in the loop of [best_likelihood_guess]. *)
Definition likelihood_step (pf : list (gmap ascii Z))
  : option string * float → string → result (option string * float) :=
  λ '(best, best_s) w,
    s ← likelihood_score w pf;
    Ok (if float_gt s best_s then (Some w, s) else (best, best_s)).

Lemma best_likelihood_guess_unfold (candidates : list string) :
  best_likelihood_guess candidates =
  pf ← position_frequencies candidates;
  for_in candidates (likelihood_step pf) best_init.
Proof. reflexivity. Qed.

Lemma likelihood_step_ok (pf : list (gmap ascii Z)) best best_s w s :
  likelihood_score w pf = Ok s →
  likelihood_step pf (best, best_s) w
  = Ok (if float_gt s best_s then (Some w, s) else (best, best_s)).
Proof. intros Hs. cbn. by rewrite Hs. Qed.

Section likelihood_scan.
Variable pf : list (gmap ascii Z).
Variable sc : string → float.

(** What holds of the running best after the words [seen]: it is the
    first word of greatest score. *)
Definition like_inv (seen : list string) (best : option string * float) : Prop :=
  match best.1 with
  | None => seen = [] ∧ best = best_init
  | Some b =>
      ∃ l1 l2, seen = l1 ++ b :: l2 ∧ best.2 = sc b ∧
        (∀ g, g ∈ l1 → SFcompare (sc g) (sc b) = Some Lt) ∧
        (∀ g, g ∈ l2 → SFcompare (sc g) (sc b) = Some Lt
                        ∨ SFcompare (sc g) (sc b) = Some Eq)
  end.

Lemma like_scan_run (rest seen : list string) (best : option string * float) :
  (∀ w, w ∈ seen ++ rest →
        likelihood_score w pf = Ok (sc w)
        ∧ SFcompare float_minus_one (sc w) = Some Lt) →
  like_inv seen best →
  ∃ best', for_in rest (likelihood_step pf) best = Ok best'
           ∧ like_inv (seen ++ rest) best'.
Proof.
  revert seen best. induction rest as [|w rest IH]; intros seen best Hvalid Hinv.
  - exists best. by rewrite app_nil_r.
  - cbn [for_in]. destruct (Hvalid w) as [Hsc Hw].
    { rewrite elem_of_app, elem_of_cons. auto. }
    replace (seen ++ w :: rest) with ((seen ++ [w]) ++ rest)
      by (by rewrite <- app_assoc).
    destruct best as [[b|] be]; unfold like_inv in Hinv; simpl in Hinv.
    + destruct Hinv as (l1 & l2 & -> & -> & Hl1 & Hl2).
      destruct (Hvalid b) as [_ Hb].
      { rewrite !elem_of_app, elem_of_cons. auto. }
      rewrite (likelihood_step_ok _ _ _ _ _ Hsc), result_bind_Ok.
      destruct (SFcompare (sc b) (sc w)) as [c|] eqn:Hbw; last first.
      { destruct (sc b), (sc w); simpl in *; discriminate. }
      pose proof (SFcompare_opp (sc b) (sc w)) as Hwb. rewrite Hbw in Hwb.
      simpl in Hwb.
      destruct (float_gt (sc w) (sc b)) eqn:Hgt.
      * apply float_gt_spec in Hgt.
        apply IH; [by rewrite <- app_assoc|]. unfold like_inv. simpl.
        exists (l1 ++ b :: l2), []. split; [done|]. split; [done|].
        split; [|by intros g ?%elem_of_nil].
        intros g [Hg|[->|Hg]%elem_of_cons]%elem_of_app.
        -- by eapply (SFcompare_join (sc g) (sc b) (sc w)); [apply Hl1|..].
        -- done.
        -- destruct (Hl2 g Hg);
             by eapply (SFcompare_join (sc g) (sc b) (sc w)).
      * apply IH; [by rewrite <- app_assoc|]. unfold like_inv. simpl.
        exists l1, (l2 ++ [w]). split; [by rewrite <- app_assoc|].
        split; [done|]. split; [done|].
        intros g [Hg|Hg%list_elem_of_singleton]%elem_of_app; [by apply Hl2|].
        subst g. rewrite Hwb.
        assert (c ≠ Lt).
        { intros ->. apply float_gt_spec in Hbw. congruence. }
        destruct c; [by right|done|by left].
    + destruct Hinv as [-> [= ->]].
      rewrite (likelihood_step_ok _ _ _ _ _ Hsc), result_bind_Ok.
      rewrite (proj2 (float_gt_spec (sc w) float_minus_one) Hw).
      apply IH; [done|]. unfold like_inv. simpl.
      exists [], []. split; [done|]. split; [done|].
      split; by intros g ?%elem_of_nil.
Qed.
End likelihood_scan.

Lemma best_likelihood_guess_outcome (candidates : list string) :
  (Exists (λ w, 5 < String.length w) candidates
   ∧ best_likelihood_guess candidates = Raise IndexError)
  ∨ (Forall (λ w, String.length w ≤ 5) candidates
     ∧ ∃ pf best, position_frequencies candidates = Ok pf
                  ∧ best_likelihood_guess candidates = Ok best
                  ∧ like_inv
                      (λ w, match likelihood_score w pf with
                            | Ok s => s
                            | Raise _ => float_zero
                            end)
                      candidates best).
Proof.
  rewrite best_likelihood_guess_unfold, position_frequencies_unfold.
  destruct (position_frequencies_outcome candidates (replicate 5 ∅))
    as [[Hbad ->]|(Hgood & pf & Hrun & Hlen & Hget)]; [by rewrite length_replicate| |].
  - by left.
  - right. split; [done|]. rewrite Hrun, result_bind_Ok.
    set (sc := λ w, match likelihood_score w pf with
                    | Ok s => s
                    | Raise _ => float_zero
                    end).
    destruct (like_scan_run pf sc candidates [] best_init) as (best & Hbest & Hinv).
    + intros w Hw. simpl in Hw. rewrite Forall_forall in Hgood.
      destruct (likelihood_score_nonneg w pf Hlen (Hgood w Hw)) as (s & Hs & Hpos).
      { intros i c. rewrite Hget, pf_get_empty. unfold letter_count. lia. }
      unfold sc. rewrite Hs. split; [done|]. by apply float_nonneg_above_init.
    + done.
    + by exists pf, best.
Qed.

(** X11: [best_likelihood_guess] raises, with [IndexError], exactly when
    some candidate has more than 5 characters. *)
Theorem best_likelihood_guess_raises_iff (candidates : list string) :
  best_likelihood_guess candidates = Raise IndexError
  ↔ Exists (λ w, 5 < String.length w) candidates.
Proof.
  destruct (best_likelihood_guess_outcome candidates)
    as [[Hbad ->]|(Hgood & pf & best & _ & -> & _)]; [done|].
  split; [discriminate|]. intros (w & Hin & Hw)%Exists_exists.
  rewrite Forall_forall in Hgood. specialize (Hgood w Hin). lia.
Qed.

(** [b] with score [s] is the first candidate of greatest likelihood
    score: the candidates before it score strictly less, those after it at
    most as much. *)
Definition first_most_likely (candidates : list string) (b : string) (s : float)
  : Prop :=
  ∃ pf l1 l2,
    position_frequencies candidates = Ok pf ∧ likelihood_score b pf = Ok s
    ∧ candidates = l1 ++ b :: l2
    ∧ (∀ w s', w ∈ l1 → likelihood_score w pf = Ok s' → float_lt s' s = true)
    ∧ (∀ w s', w ∈ l2 → likelihood_score w pf = Ok s' → float_le s' s = true).

(** X12: on a non-empty list of candidates of at most 5 letters,
    [best_likelihood_guess] returns a candidate, never [None]: the first
    one of greatest likelihood score, with that score. *)
Theorem best_likelihood_guess_first_max (candidates : list string) :
  candidates ≠ [] → Forall (λ w, String.length w ≤ 5) candidates →
  ∃ b s, best_likelihood_guess candidates = Ok (Some b, s)
         ∧ first_most_likely candidates b s.
Proof.
  intros Hne Hall.
  destruct (best_likelihood_guess_outcome candidates)
    as [[Hbad _]|(_ & pf & best & Hpf & Hbest & Hinv)].
  { exfalso. apply Exists_exists in Hbad as (w & Hin & Hw).
    rewrite Forall_forall in Hall. specialize (Hall w Hin). lia. }
  assert (Hlen : length pf = 5).
  { destruct (position_frequencies_outcome candidates (replicate 5 ∅))
      as [[_ Hr]|(_ & pf' & Hr & Hlen & _)]; [by rewrite length_replicate|..];
      rewrite position_frequencies_unfold in Hpf; congruence. }
  assert (Hsc : ∀ w, w ∈ candidates → ∃ s, likelihood_score w pf = Ok s).
  { intros w Hw. rewrite Forall_forall in Hall.
    destruct (likelihood_score w pf) as [s|e] eqn:Hs; [by eexists|].
    exfalso. destruct e;
      try (destruct (ls_word_returns pf (list_ascii_of_string w) 0 (float_zero, ∅))
             as [st Hrun];
           [done|rewrite length_list_ascii_of_string; specialize (Hall w Hw); lia|];
           rewrite likelihood_score_unfold in Hs; unfold enumerate in Hs;
           simpl in Hrun; rewrite Hrun in Hs; discriminate). }
  destruct best as [[b|] s]; unfold like_inv in Hinv; simpl in Hinv;
    [|by destruct Hinv].
  destruct Hinv as (l1 & l2 & Hsplit & Hs & Hl1 & Hl2).
  assert (Hb : b ∈ candidates).
  { rewrite Hsplit, elem_of_app, elem_of_cons. auto. }
  destruct (Hsc b Hb) as [sb Hsb]. rewrite Hsb in Hs, Hl1, Hl2. subst s.
  exists b, sb. split; [done|]. exists pf, l1, l2.
  split; [done|]. split; [done|]. split; [done|]. split.
  - intros w s' Hw Hs'. specialize (Hl1 w Hw). rewrite Hs' in Hl1.
    by apply float_lt_spec.
  - intros w s' Hw Hs'. specialize (Hl2 w Hw). rewrite Hs' in Hl2.
    by apply float_le_spec.
Qed.

Lemma best_likelihood_guess_first_max_witness :
  ∃ b s, best_likelihood_guess ["crane"; "slate"; "grape"]%string = Ok (Some b, s)
         ∧ first_most_likely ["crane"; "slate"; "grape"]%string b s.
Proof.
  apply (best_likelihood_guess_first_max ["crane"; "slate"; "grape"]%string).
  - discriminate.
  - repeat constructor.
Defined.

(** ** The buckets of [entropy_of_guess] *)

(** [buckets[key]] read without inserting: 0 for a missing key. *)
Fixpoint bucket_get (buckets : list (string * Z)) (key : string) : Z :=
  match buckets with
  | [] => 0%Z
  | (k, v) :: rest => if decide (k = key) then v else bucket_get rest key
  end.

(** The number of candidates whose pattern for [guess] is [p]. *)
Definition pattern_count (guess : string) (candidates : list string) (p : string)
  : Z :=
  Z.of_nat (length (filter (λ w, pattern_for guess w = Ok p) candidates)).

(** The first loop of [entropy_of_guess]. *)
Definition pattern_buckets (guess : string) (candidates : list string)
  : result (list (string * Z)) :=
  for_in candidates
    (λ buckets sol, p ← pattern_for guess sol; Ok (bucket_incr buckets p))
    ([] : list (string * Z)).

(** The body of the second loop of [entropy_of_guess], for [n] candidates. *)
Definition entropy_term (log2 : float → result float) (n : Z)
    (ent : float) (k : Z) : result float :=
  p ← truediv k n;
  l ← log2 p;
  Ok (float_add ent (float_mul (float_neg p) l)).

Lemma entropy_of_guess_unfold log2 guess candidates :
  entropy_of_guess log2 guess candidates =
  buckets ← pattern_buckets guess candidates;
  for_in (buckets.*2) (entropy_term log2 (Z.of_nat (length candidates))) float_zero.
Proof. reflexivity. Qed.

Lemma bucket_get_incr buckets key p :
  bucket_get (bucket_incr buckets key) p =
  (bucket_get buckets p + (if decide (key = p) then 1 else 0))%Z.
Proof.
  induction buckets as [|[k v] rest IH]; simpl.
  - repeat case_decide; simplify_eq; lia.
  - destruct (decide (k = key)) as [->|Hne]; simpl.
    + repeat case_decide; simplify_eq; lia.
    + rewrite IH. repeat case_decide; simplify_eq; lia.
Qed.

Lemma bucket_incr_keys buckets key :
  (bucket_incr buckets key).*1 =
  if decide (key ∈ buckets.*1) then buckets.*1 else buckets.*1 ++ [key].
Proof.
  induction buckets as [|[k v] rest IH]; [done|].
  cbn [bucket_incr]. rewrite (fmap_cons fst (k, v) rest). cbn [fst].
  destruct (decide (k = key)) as [->|Hne].
  - rewrite fmap_cons. cbn [fst]. rewrite decide_True; [done|]. by left.
  - rewrite fmap_cons, IH. cbn [fst].
    destruct (decide (key ∈ rest.*1)) as [Hin|Hout].
    + rewrite decide_True; [done|]. by right.
    + rewrite decide_False; [done|].
      intros [?|?]%elem_of_cons; [congruence|done].
Qed.

Lemma bucket_incr_NoDup buckets key :
  NoDup (buckets.*1) → NoDup ((bucket_incr buckets key).*1).
Proof.
  intros Hnd. rewrite bucket_incr_keys. case_decide as Hin; [done|].
  apply NoDup_app. split; [done|]. split.
  - intros x Hx ->%list_elem_of_singleton. done.
  - apply NoDup_singleton.
Qed.

Lemma bucket_get_elem_of buckets p k :
  NoDup (buckets.*1) → (p, k) ∈ buckets → bucket_get buckets p = k.
Proof.
  induction buckets as [|[k' v] rest IH]; simpl; intros Hnd Hin.
  - by apply elem_of_nil in Hin.
  - apply NoDup_cons in Hnd as [Hk' Hnd].
    apply elem_of_cons in Hin as [[= -> ->]|Hin].
    + by rewrite decide_True.
    + rewrite decide_False; [by apply IH|]. intros ->. apply Hk'.
      apply list_elem_of_fmap. by exists (p, k).
Qed.

Lemma pattern_count_cons guess w ws p :
  pattern_count guess (w :: ws) p =
  ((if decide (pattern_for guess w = Ok p) then 1 else 0)
   + pattern_count guess ws p)%Z.
Proof.
  unfold pattern_count. rewrite filter_cons. case_decide; simpl; lia.
Qed.

Lemma pattern_buckets_run guess cands acc :
  String.length guess = 5 → words cands →
  NoDup (acc.*1) → Forall (λ kv, (1 ≤ kv.2)%Z) acc →
  ∃ buckets,
    for_in cands
      (λ buckets sol, p ← pattern_for guess sol; Ok (bucket_incr buckets p)) acc
    = Ok buckets
    ∧ NoDup (buckets.*1)
    ∧ Forall (λ kv, (1 ≤ kv.2)%Z) buckets
    ∧ (∀ p, bucket_get buckets p = (bucket_get acc p + pattern_count guess cands p)%Z)
    ∧ bucket_total buckets = (bucket_total acc + Z.of_nat (length cands))%Z.
Proof.
  intros Hg Hall. revert acc.
  induction Hall as [|w cands Hw Hall IH]; intros acc Hnd Hpos.
  - exists acc. repeat split; try done.
    + intros p. unfold pattern_count. simpl. lia.
    + simpl. lia.
  - cbn [for_in]. destruct (pattern_for_returns guess w Hg Hw) as (p & Hp).
    rewrite Hp, !result_bind_Ok.
    destruct (IH (bucket_incr acc p)) as (buckets & Hrun & Hnd' & Hpos' & Hget & Htot).
    { by apply bucket_incr_NoDup. }
    { by apply bucket_incr_positive. }
    exists buckets. repeat split; try done.
    + intros q. rewrite Hget, bucket_get_incr, pattern_count_cons, Hp.
      repeat case_decide; simplify_eq; lia.
    + rewrite Htot, bucket_incr_total, length_cons. lia.
Qed.

(** The buckets partition the candidates by pattern: no pattern is a key
    twice, the size under a pattern is the number of candidates with that
    pattern, every bucket is non-empty, and the sizes add up to the number
    of candidates. *)
Definition partitions (guess : string) (candidates : list string)
    (buckets : list (string * Z)) : Prop :=
  NoDup (buckets.*1)
  ∧ (∀ p, bucket_get buckets p = pattern_count guess candidates p)
  ∧ (∀ p k, (p, k) ∈ buckets →
            (1 ≤ k)%Z ∧ k = pattern_count guess candidates p)
  ∧ bucket_total buckets = Z.of_nat (length candidates).

Lemma pattern_buckets_partitions guess candidates :
  String.length guess = 5 → words candidates →
  ∃ buckets, pattern_buckets guess candidates = Ok buckets
             ∧ partitions guess candidates buckets.
Proof.
  intros Hg Hall.
  destruct (pattern_buckets_run guess candidates [] Hg Hall)
    as (buckets & Hrun & Hnd & Hpos & Hget & Htot); [constructor..|].
  exists buckets. split; [done|]. split; [done|]. split; [|split].
  - intros p. rewrite Hget. simpl. lia.
  - intros p k Hin. split.
    + rewrite Forall_forall in Hpos. apply (Hpos _ Hin).
    + rewrite <- (bucket_get_elem_of _ _ _ Hnd Hin), Hget. simpl. lia.
  - rewrite Htot. simpl. lia.
Qed.

(** The distinct elements of a list, in the order in which they first
    occur: the order in which a [dict] holds keys that were inserted in the
    order of the list. *)
Fixpoint first_occurrences (l : list string) : list string :=
  match l with
  | [] => []
  | x :: l => x :: filter (λ y, y ≠ x) (first_occurrences l)
  end.

(** [pats] are the patterns of the candidates for the guess, in order. *)
Definition patterns_of (guess : string) (candidates pats : list string) : Prop :=
  Forall2 (λ w p, pattern_for guess w = Ok p) candidates pats.

Lemma patterns_of_exist guess candidates :
  String.length guess = 5 → words candidates →
  ∃ pats, patterns_of guess candidates pats.
Proof.
  intros Hg. induction 1 as [|w ws Hw _ [pats IH]]; [exists []; constructor|].
  destruct (pattern_for_returns guess w Hg Hw) as [p Hp].
  exists (p :: pats). by constructor.
Qed.

Lemma pattern_buckets_keys guess candidates pats acc :
  patterns_of guess candidates pats →
  ∃ buckets,
    for_in candidates
      (λ buckets sol, p ← pattern_for guess sol; Ok (bucket_incr buckets p)) acc
    = Ok buckets
    ∧ buckets.*1 = acc.*1 ++ filter (λ p, p ∉ acc.*1) (first_occurrences pats).
Proof.
  intros Hpats. revert acc.
  induction Hpats as [|w p ws pats Hp _ IH]; intros acc.
  - exists acc. split; [done|]. simpl. by rewrite filter_nil, app_nil_r.
  - cbn [for_in]. rewrite Hp, result_bind_Ok.
    destruct (IH (bucket_incr acc p)) as (buckets & Hrun & Hkeys).
    exists buckets. split; [exact Hrun|]. rewrite Hkeys, bucket_incr_keys.
    cbn [first_occurrences]. rewrite filter_cons, list_filter_filter.
    destruct (decide (p ∈ acc.*1)) as [Hin|Hout].
    + rewrite decide_False by (by intros Hn). f_equal.
      apply list_filter_iff. intros q. split; [|by intros [? _]].
      intros Hq. split; [done|]. by intros ->.
    + rewrite decide_True by done. rewrite <- app_assoc. simpl. do 2 f_equal.
      apply list_filter_iff. intros q. rewrite elem_of_app, list_elem_of_singleton.
      tauto.
Qed.

Lemma bucket_sizes (f : string → Z) (buckets : list (string * Z)) :
  (∀ p k, (p, k) ∈ buckets → k = f p) → buckets.*2 = f <$> buckets.*1.
Proof.
  induction buckets as [|[p k] rest IH]; intros Hf; [done|].
  rewrite !fmap_cons. cbn [fst snd]. f_equal.
  - apply Hf. by left.
  - apply IH. intros q v Hqv. apply Hf. by right.
Qed.

(** The entropy as a sum: one term per distinct pattern, in the order in
    which the patterns first occur among the candidates, each for the
    number of candidates with that pattern. *)
Lemma entropy_of_guess_sum log2 guess candidates pats :
  String.length guess = 5 → words candidates →
  patterns_of guess candidates pats →
  entropy_of_guess log2 guess candidates
  = for_in (pattern_count guess candidates <$> first_occurrences pats)
      (entropy_term log2 (Z.of_nat (length candidates))) float_zero.
Proof.
  intros Hg Hall Hpats.
  destruct (pattern_buckets_partitions guess candidates Hg Hall)
    as (buckets & Hrun & Hnd & Hget & Hin & Htot).
  destruct (pattern_buckets_keys guess candidates pats [] Hpats)
    as (buckets' & Hrun' & Hkeys).
  unfold pattern_buckets in Hrun. rewrite Hrun in Hrun'.
  injection Hrun' as <-.
  rewrite entropy_of_guess_unfold. unfold pattern_buckets.
  rewrite Hrun, result_bind_Ok.
  rewrite (bucket_sizes (pattern_count guess candidates) buckets)
    by (intros p k Hpk; by destruct (Hin p k Hpk)).
  rewrite Hkeys. simpl. do 2 f_equal.
  generalize (first_occurrences pats). clear. intros l.
  induction l as [|q l IH]; [done|].
  rewrite filter_cons_True by (by intros Hq%elem_of_nil). by rewrite IH.
Qed.

(** X13: for words, [entropy_of_guess] is the sum, started at 0.0, of one
    term per distinct pattern of a candidate for the guess, taken in the
    order in which the patterns first occur among the candidates; the term
    of a pattern is computed from the number [k] of candidates with that
    pattern as [-(k/n) * log2(k/n)]. *)
Theorem entropy_of_guess_partition (log2 : float → result float)
    (guess : string) (candidates : list string) :
  String.length guess = 5 → words candidates →
  ∃ pats,
    patterns_of guess candidates pats
    ∧ entropy_of_guess log2 guess candidates
      = for_in (pattern_count guess candidates <$> first_occurrences pats)
          (entropy_term log2 (Z.of_nat (length candidates))) float_zero.
Proof.
  intros Hg Hall.
  destruct (patterns_of_exist guess candidates Hg Hall) as [pats Hpats].
  exists pats. split; [done|]. by apply entropy_of_guess_sum.
Qed.

Lemma entropy_of_guess_partition_witness :
  ∃ pats,
    patterns_of "crane" ["crane"; "slate"; "grape"; "slate"]%string pats
    ∧ entropy_of_guess log2_floor "crane" ["crane"; "slate"; "grape"; "slate"]%string
      = for_in
          (pattern_count "crane" ["crane"; "slate"; "grape"; "slate"]%string
             <$> first_occurrences pats)
          (entropy_term log2_floor
             (Z.of_nat (length ["crane"; "slate"; "grape"; "slate"]%string)))
          float_zero.
Proof.
  apply (entropy_of_guess_partition log2_floor "crane"
           ["crane"; "slate"; "grape"; "slate"]%string).
  - reflexivity.
  - repeat constructor.
Defined.

(** X14: when every one of at least one candidate yields the same pattern
    for the guess, there is a single bucket holding all [n] candidates,
    and the entropy is the one term [0.0 + -(n/n) * log2(n/n)]. *)
Theorem entropy_of_guess_single_bucket (log2 : float → result float)
    (guess p : string) (candidates : list string) :
  String.length guess = 5 → words candidates → candidates ≠ [] →
  (∀ w, w ∈ candidates → pattern_for guess w = Ok p) →
  pattern_buckets guess candidates = Ok [(p, Z.of_nat (length candidates))]
  ∧ entropy_of_guess log2 guess candidates
    = entropy_term log2 (Z.of_nat (length candidates)) float_zero
        (Z.of_nat (length candidates)).
Proof.
  intros Hg Hall Hne Hsame.
  destruct (pattern_buckets_partitions guess candidates Hg Hall)
    as (buckets & Hrun & Hnd & Hget & Hin & Htot).
  assert (Hkeys : ∀ q k, (q, k) ∈ buckets → q = p).
  { intros q k Hqk. destruct (Hin q k Hqk) as [Hk ->].
    unfold pattern_count in Hk.
    destruct (filter _ candidates) as [|w ?] eqn:Hf; [simpl in Hk; lia|].
    assert (w ∈ filter (λ w, pattern_for guess w = Ok q) candidates) as Hw.
    { rewrite Hf. by left. }
    apply list_elem_of_filter in Hw as [Hq Hw]. specialize (Hsame w Hw). congruence. }
  assert (Hbuckets : buckets = [(p, Z.of_nat (length candidates))]).
  { destruct buckets as [|[q k] [|[q' k'] rest]].
    - simpl in Htot. destruct candidates; [done|]. simpl in Htot. lia.
    - rewrite (Hkeys q k) by (by left). simpl in Htot. f_equal. f_equal. lia.
    - exfalso. simpl in Hnd. apply NoDup_cons in Hnd as [Hq _]. apply Hq.
      rewrite (Hkeys q k), (Hkeys q' k') by (by (left || (right; left))).
      by left. }
  subst buckets. split; [done|].
  rewrite entropy_of_guess_unfold, Hrun, result_bind_Ok. simpl.
  by destruct (entropy_term _ _ _ _).
Qed.

Lemma entropy_of_guess_single_bucket_witness :
  pattern_buckets "crane" ["grape"; "grape"]%string
  = Ok [("NCCNC"%string, Z.of_nat (length ["grape"; "grape"]%string))]
  ∧ entropy_of_guess log2_floor "crane" ["grape"; "grape"]%string
    = entropy_term log2_floor (Z.of_nat (length ["grape"; "grape"]%string))
        float_zero (Z.of_nat (length ["grape"; "grape"]%string)).
Proof.
  apply (entropy_of_guess_single_bucket log2_floor "crane" "NCCNC"
           ["grape"; "grape"]%string).
  - reflexivity.
  - repeat constructor.
  - discriminate.
  - intros w Hw. repeat (apply elem_of_cons in Hw as [->|Hw]; [by vm_compute|]).
    by apply elem_of_nil in Hw.
Defined.

(** X15: for words and a fitting [math.log2], [entropy_of_guess] raises
    nothing and returns a number that is not negative (and not NaN). *)
Theorem entropy_of_guess_is_nonneg (log2 : float → result float)
    (guess : string) (candidates : list string) :
  String.length guess = 5 → words candidates →
  log2_fits log2 (Z.of_nat (length candidates)) →
  ∃ e, entropy_of_guess log2 guess candidates = Ok e ∧ nonneg e.
Proof. apply entropy_of_guess_nonneg. Qed.

Lemma log2_floor_fits_2 : log2_fits log2_floor 2.
Proof.
  intros k Hk. assert (k = 1 ∨ k = 2)%Z as [-> | ->] by lia;
    (eexists _, _; repeat split; vm_compute; reflexivity).
Defined.

Lemma entropy_of_guess_is_nonneg_witness :
  ∃ e, entropy_of_guess log2_floor "crane" ["crane"; "slate"]%string = Ok e
       ∧ nonneg e.
Proof.
  apply (entropy_of_guess_is_nonneg log2_floor "crane" ["crane"; "slate"]%string).
  - reflexivity.
  - repeat constructor.
  - exact log2_floor_fits_2.
Defined.

Lemma entropy_sum_raises log2 n ks ent0 e :
  n ≠ 0%Z →
  for_in ks (entropy_term log2 n) ent0 = Raise e → ∃ x, log2 x = Raise e.
Proof.
  intros Hn. revert ent0. induction ks as [|k ks IH]; intros ent0; [done|].
  cbn [for_in].
  assert (Hterm : entropy_term log2 n ent0 k =
                  l ← log2 (float_div (float_of_int k) (float_of_int n));
                  Ok (float_add ent0
                        (float_mul
                           (float_neg (float_div (float_of_int k) (float_of_int n)))
                           l))).
  { unfold entropy_term, truediv. by rewrite bool_decide_eq_false_2 by done. }
  rewrite Hterm.
  destruct (log2 _) as [l|e'] eqn:Hlog.
  - rewrite !result_bind_Ok. apply IH.
  - intros [= ->]. by eexists.
Qed.

Lemma pattern_buckets_raises guess cands acc e :
  for_in cands
    (λ buckets sol, p ← pattern_for guess sol; Ok (bucket_incr buckets p)) acc
  = Raise e → e = IndexError.
Proof.
  revert acc. induction cands as [|w cands IH]; intros acc; [done|].
  cbn [for_in].
  destruct (pattern_for_outcome guess w) as [(_ & _ & p & ->)|[_ ->]].
  - rewrite !result_bind_Ok. apply IH.
  - by intros [= <-].
Qed.

(** X16: whatever the inputs, [entropy_of_guess] raises only
    [IndexError] (a word of fewer than 5 characters) or what [math.log2]
    raised: the division by the number of candidates never raises. *)
Theorem entropy_of_guess_raises_only (log2 : float → result float)
    (guess : string) (candidates : list string) (e : exn) :
  entropy_of_guess log2 guess candidates = Raise e →
  e = IndexError ∨ ∃ x, log2 x = Raise e.
Proof.
  rewrite entropy_of_guess_unfold. unfold pattern_buckets.
  destruct (for_in candidates _ []) as [buckets|e'] eqn:Hrun.
  - rewrite result_bind_Ok. destruct candidates as [|w ws].
    + injection Hrun as <-. discriminate.
    + intros Hsum. right. eapply entropy_sum_raises; [|exact Hsum].
      rewrite length_cons. lia.
  - intros [= ->]. left. by eapply pattern_buckets_raises.
Qed.

Lemma entropy_of_guess_raises_only_witness :
  IndexError = IndexError ∨ ∃ x, log2_floor x = Raise IndexError.
Proof.
  apply (entropy_of_guess_raises_only log2_floor "crane" ["slat"]%string IndexError).
  vm_compute. reflexivity.
Defined.

(** ** Sums of positive floats *)


















(** ** The bounds of the entropy *)

(** The float [1.0]. *)
Definition float_one : float := S754_finite false 4503599627370496 (-52).




Example log2_at_eleven_literals :
  Prim2SF 0x1.745d1745d1746p-4%float = S754_finite false 0x1745d1745d1746 (-56)
  ∧ Prim2SF (-0x1.bacea7c065d42p+1)%float = S754_finite true 0x1bacea7c065d42 (-51)
  ∧ Prim2SF 11%float = S754_finite false 0x16000000000000 (-49)
  ∧ Prim2SF 0x1.bacea7c065d42p+1%float = S754_finite false 0x1bacea7c065d42 (-51)
  ∧ Prim2SF 1%float = float_one
  ∧ truediv 1 11 = Ok (S754_finite false 0x1745d1745d1746 (-56))
  ∧ float_of_int 11 = S754_finite false 0x16000000000000 (-49).
Proof. repeat split; vm_compute; reflexivity. Qed.














(** ** Word loading *)

(** [ALPHA = set(string.ascii_lowercase)] *)
Definition ALPHA : gset ascii :=
  list_to_set (list_ascii_of_string "abcdefghijklmnopqrstuvwxyz").

(** [len(w) == 5 and set(w) <= ALPHA] *)
Definition is_word (w : string) : Prop :=
  String.length w = 5 ∧ list_to_set (list_ascii_of_string w) ⊆ ALPHA.

Global Instance is_word_dec (w : string) : Decision (is_word w).
Proof. unfold is_word. apply _. Defined.

(** The order of [sorted] on strings: by character code, a proper prefix
    first. *)
Definition string_le (a b : string) : Prop := String.leb a b = true.

Global Instance string_le_dec (a b : string) : Decision (string_le a b).
Proof. unfold string_le. apply _. Defined.

(** [sorted(set(xs))]: the distinct elements in increasing order. *)
Definition sorted_set (xs : list string) : list string :=
  merge_sort string_le (remove_dups xs).

Section load.
(** The lines of the file at a path of the working directory, [None] when
    [os.path.exists] is false, and [line.strip().lower()]. A path that
    exists is taken to be a readable text file in UTF-8: [open] or the
    decoding raising is outside this description, and what follows is
    about the words [load_words] returns when reading succeeds. *)
Variable file_lines : string → option (list string).
Variable strip_lower : string → string.

Definition read_file (path : string) : list string :=
  match file_lines path with
  | Some lines => filter is_word (strip_lower <$> lines)
  | None => []
  end.

(** [answers, allowed] before the common last steps of [load_words]. *)
Definition load_lists : list string * list string :=
  match file_lines "words.txt" with
  | Some _ =>
      let ws := read_file "words.txt" in
      (filter (λ w, String.length w = 5) ws, sorted_set ws)
  | None =>
      let answers :=
        if bool_decide (is_Some (file_lines "answers.txt"))
        then read_file "answers.txt" else [] in
      let allowed :=
        if bool_decide (is_Some (file_lines "allowed.txt"))
        then read_file "allowed.txt" else [] in
      if bool_decide (answers = []) && bool_decide (allowed = [])
      then (FALLBACK, sorted_set FALLBACK)
      else (answers, allowed)
  end.

Definition load_words : list string * list string :=
  let '(answers, allowed) := load_lists in
  let allowed := sorted_set (allowed ++ answers) in
  let answers := filter is_word answers in
  let allowed := filter is_word allowed in
  let answers := if bool_decide (answers = []) then allowed else answers in
  (answers, allowed).
End load.

Lemma ascii_compare_trans_lt (a b c : ascii) :
  Ascii.compare a b = Lt → Ascii.compare b c = Lt → Ascii.compare a c = Lt.
Proof.
  unfold Ascii.compare. rewrite !N.compare_lt_iff. lia.
Qed.

Lemma string_compare_trans_lt (a b c : string) :
  String.compare a b = Lt → String.compare b c = Lt → String.compare a c = Lt.
Proof.
  revert b c. induction a as [|x a IH]; intros [|y b] [|z c]; simpl; try done.
  destruct (Ascii.compare x y) eqn:Hxy; try done;
    destruct (Ascii.compare y z) eqn:Hyz; try done.
  - apply Ascii.compare_eq_iff in Hxy as ->, Hyz as ->.
    assert (Ascii.compare z z = Eq) as ->.
    { unfold Ascii.compare. apply N.compare_refl. }
    apply IH.
  - apply Ascii.compare_eq_iff in Hxy as ->. by rewrite Hyz.
  - apply Ascii.compare_eq_iff in Hyz as <-. by rewrite Hxy.
  - by rewrite (ascii_compare_trans_lt x y z).
Qed.

Global Instance string_le_trans : Transitive string_le.
Proof.
  intros a b c. unfold string_le, String.leb.
  destruct (String.compare a b) eqn:Hab; try done;
    destruct (String.compare b c) eqn:Hbc; try done; intros _ _.
  - apply String.compare_eq_iff in Hab as ->. by rewrite Hbc.
  - apply String.compare_eq_iff in Hab as ->. by rewrite Hbc.
  - apply String.compare_eq_iff in Hbc as <-. by rewrite Hab.
  - by rewrite (string_compare_trans_lt a b c).
Qed.

Global Instance string_le_total : Total string_le.
Proof. intros a b. apply String.leb_total. Qed.

Lemma elem_of_sorted_set (xs : list string) (w : string) :
  w ∈ sorted_set xs ↔ w ∈ xs.
Proof.
  unfold sorted_set. by rewrite merge_sort_Permutation, elem_of_remove_dups.
Qed.

Lemma NoDup_sorted_set (xs : list string) : NoDup (sorted_set xs).
Proof.
  unfold sorted_set. rewrite merge_sort_Permutation. apply NoDup_remove_dups.
Qed.

Lemma StronglySorted_filter {A : Type} (R : A → A → Prop) (P : A → Prop)
    `{∀ x, Decision (P x)} (l : list A) :
  StronglySorted R l → StronglySorted R (filter P l).
Proof.
  induction 1 as [|x l Hl IH Hx]; [constructor|].
  rewrite filter_cons. case_decide; [|done].
  constructor; [done|]. rewrite Forall_forall in Hx |- *.
  intros y [_ Hy]%list_elem_of_filter. by apply Hx.
Qed.

Section load_facts.
Variable file_lines : string → option (list string).
Variable strip_lower : string → string.

Lemma load_words_unfold :
  load_words file_lines strip_lower =
  let allowed :=
    filter is_word
      (sorted_set ((load_lists file_lines strip_lower).2
                   ++ (load_lists file_lines strip_lower).1)) in
  let answers := filter is_word (load_lists file_lines strip_lower).1 in
  (if bool_decide (answers = []) then allowed else answers, allowed).
Proof. unfold load_words. by destruct (load_lists _ _). Qed.

(** X17: whatever the files hold, every word that [load_words] returns,
    as an answer or as an allowed guess, has 5 characters, all of them
    lowercase letters. *)
Theorem load_words_are_words :
  Forall is_word (load_words file_lines strip_lower).1
  ∧ Forall is_word (load_words file_lines strip_lower).2.
Proof.
  rewrite load_words_unfold. simpl.
  assert (∀ l, Forall is_word (filter is_word l)) as Hfilter.
  { intros l. apply Forall_forall. by intros w [? _]%list_elem_of_filter. }
  split; [|done]. by case_bool_decide.
Qed.

(** X18: every answer that [load_words] returns is also an allowed
    guess. *)
Theorem load_words_answers_allowed (w : string) :
  w ∈ (load_words file_lines strip_lower).1 →
  w ∈ (load_words file_lines strip_lower).2.
Proof.
  rewrite load_words_unfold. simpl. case_bool_decide; [done|].
  intros [Hw Hin]%list_elem_of_filter. apply list_elem_of_filter. split; [done|].
  apply elem_of_sorted_set, elem_of_app. by right.
Qed.

(** X19: the allowed guesses that [load_words] returns are in strictly
    increasing order: sorted and without duplicates. *)
Theorem load_words_allowed_sorted :
  StronglySorted string_le (load_words file_lines strip_lower).2
  ∧ NoDup (load_words file_lines strip_lower).2.
Proof.
  rewrite load_words_unfold. simpl. split.
  - apply StronglySorted_filter. unfold sorted_set.
    apply StronglySorted_merge_sort; apply _.
  - apply NoDup_filter, NoDup_sorted_set.
Qed.

(** X20: [load_words] returns no answers only if it returns no allowed
    guesses either. *)
Theorem load_words_answers_nonempty :
  (load_words file_lines strip_lower).1 = [] →
  (load_words file_lines strip_lower).2 = [].
Proof.
  rewrite load_words_unfold. simpl. case_bool_decide; [done|]. done.
Qed.
End load_facts.

Example load_words_no_files :
  (load_words (λ _, None) id).1 = FALLBACK.
Proof. vm_compute. reflexivity. Qed.

Lemma load_words_answers_allowed_witness :
  "crane"%string ∈ (load_words (λ _, None) id).2.
Proof.
  apply (load_words_answers_allowed (λ _, None) id "crane").
  rewrite load_words_no_files. unfold FALLBACK.
  do 14 right. left.
Defined.

Lemma load_words_answers_nonempty_witness :
  (load_words (λ p, if String.eqb p "words.txt" then Some ["Hello!"%string] else None)
     id).2 = [].
Proof.
  apply (load_words_answers_nonempty
           (λ p, if String.eqb p "words.txt" then Some ["Hello!"%string] else None)
           id).
  vm_compute. reflexivity.
Defined.

(** ** The session: feedback buttons and turns *)

(** The state of [WordleGUI] that its logic reads and writes: the
    remaining candidates, the allowed guesses, the turn counter and the
    texts of the five pattern buttons. What the widgets display (colours,
    labels, the list box, message boxes) is not part of it; which message
    [_apply_feedback] shows is its [outcome]. *)
Record session : Type := Session {
  s_candidates : list string;
  s_allowed : list string;
  s_turn : Z;
  s_buttons : list string
}.

Inductive outcome : Type :=
  | InvalidGuess
  | InvalidPattern
  | Solved
  | NoCandidates
  | NextTurn.

(** [self.pattern_states = ["N","P","C"]] *)
Definition pattern_states : list string := ["N"; "P"; "C"]%string.

(** [l.index(x)] *)
Fixpoint index_of (l : list string) (x : string) : result nat :=
  match l with
  | [] => Raise ValueError
  | y :: l' => if decide (y = x) then Ok 0 else i ← index_of l' x; Ok (S i)
  end.

Definition cycle_pattern (buttons : list string) (i : nat) : result (list string) :=
  curr ← getitem buttons i;
  idx ← index_of pattern_states curr;
  nxt ← getitem pattern_states ((idx + 1) `mod` 3);
  setitem buttons i nxt.

Definition reset_pattern (buttons : list string) : list string :=
  (λ _, "N"%string) <$> buttons.

(** [_get_pattern_string]: ["".join(b["text"] for b in buttons)] *)
Definition get_pattern_string (buttons : list string) : string :=
  String.concat "" buttons.

Section gui.
Variable log2 : float → result float.
Variable strip_lower : string → string.

(** [_refresh_recommendation], for the exceptions of the two scans it
    runs. *)
Definition refresh_recommendation (s : session) : result () :=
  if bool_decide (s_candidates s = []) then Ok ()
  else
    _ ← best_entropy_guess log2 (s_candidates s) (s_allowed s);
    _ ← best_likelihood_guess (s_candidates s);
    Ok ().

(** [_apply_feedback] on the text [entry] of the guess field. *)
Definition apply_feedback (entry : string) (s : session)
  : result (session * outcome) :=
  let guess := strip_lower entry in
  let pat := get_pattern_string (s_buttons s) in
  if bool_decide (String.length guess ≠ 5)
     || bool_decide (list_to_set (list_ascii_of_string guess) ∖ ALPHA ≠ ∅)
  then Ok (s, InvalidGuess)
  else if bool_decide (String.length pat ≠ 5)
          || existsb (λ ch, bool_decide (ch ∉ list_ascii_of_string "CNP"))
               (list_ascii_of_string pat)
  then Ok (s, InvalidPattern)
  else
    cands ← filter_candidates (s_candidates s) guess pat;
    let s1 := Session cands (s_allowed s) (s_turn s) (s_buttons s) in
    if bool_decide (pat = "CCCCC"%string) then
      _ ← refresh_recommendation s1;
      Ok (s1, Solved)
    else if bool_decide (length cands = 0) then Ok (s1, NoCandidates)
    else
      let s2 := Session cands (s_allowed s) (s_turn s + 1)%Z (s_buttons s) in
      _ ← refresh_recommendation s2;
      Ok (Session cands (s_allowed s) (s_turn s + 1)%Z
            (reset_pattern (s_buttons s)), NextTurn).
End gui.

Example cycle_pattern_twice :
  (b ← cycle_pattern (replicate 5 "N"%string) 2; cycle_pattern b 2)
  = Ok ["N"; "N"; "C"; "N"; "N"]%string.
Proof. reflexivity. Qed.

Example apply_feedback_crane :
  apply_feedback log2_floor id "crane"
    (Session ["crane"; "slate"; "grape"]%string FALLBACK 1
       ["N"; "C"; "C"; "N"; "C"]%string)
  = Ok (Session ["grape"%string] FALLBACK 2 (replicate 5 "N"%string), NextTurn).
Proof. vm_compute. reflexivity. Qed.

(** The texts of the five pattern buttons are feedback symbols. *)
Definition buttons_ok (buttons : list string) : Prop :=
  length buttons = 5 ∧ Forall (λ t, t ∈ pattern_states) buttons.

(** The symbol after [t] in the cycle N, P, C. *)
Definition next_state (t : string) : string :=
  if decide (t = "N"%string) then "P"%string
  else if decide (t = "P"%string) then "C"%string
  else "N"%string.

Lemma cycle_pattern_step (buttons : list string) (i : nat) (t : string) :
  buttons !! i = Some t → t ∈ pattern_states →
  cycle_pattern buttons i = Ok (<[i := next_state t]> buttons)
  ∧ next_state t ∈ pattern_states.
Proof.
  intros Hi Ht. unfold cycle_pattern.
  rewrite (getitem_Ok _ _ _ Hi), result_bind_Ok.
  assert (Hlt : i < length buttons) by (by eapply lookup_lt_Some).
  unfold pattern_states in Ht.
  repeat (apply elem_of_cons in Ht as [->|Ht]);
    [..|by apply elem_of_nil in Ht];
    (split; [unfold setitem; rewrite bool_decide_eq_true_2 by done; vm_compute; reflexivity
          |vm_compute; repeat constructor]).
Qed.

Lemma next_state_thrice (t : string) :
  t ∈ pattern_states → next_state (next_state (next_state t)) = t.
Proof.
  unfold pattern_states. intros Ht.
  repeat (apply elem_of_cons in Ht as [->|Ht]); [done..|by apply elem_of_nil in Ht].
Qed.

(** X21: clicking a pattern button whose text is a feedback symbol never
    raises. The click changes that button only, and to the next symbol of
    the cycle: N becomes P, P becomes C, C becomes N; the button still shows
    a feedback symbol, and three clicks bring back the text there was. *)
Theorem cycle_pattern_cycles (buttons : list string) (i : nat) (t : string) :
  buttons !! i = Some t → t ∈ pattern_states →
  ∃ t' b2,
    cycle_pattern buttons i = Ok (<[i := t']> buttons)
    ∧ ((t = "N" ∧ t' = "P") ∨ (t = "P" ∧ t' = "C") ∨ (t = "C" ∧ t' = "N"))%string
    ∧ t' ∈ pattern_states
    ∧ cycle_pattern (<[i := t']> buttons) i = Ok b2
    ∧ cycle_pattern b2 i = Ok buttons.
Proof.
  intros Ht Hin.
  destruct (cycle_pattern_step buttons i t Ht Hin) as [H1 Hin1].
  assert (Hi : i < length buttons) by (by eapply lookup_lt_Some).
  destruct (cycle_pattern_step (<[i := next_state t]> buttons) i (next_state t))
    as [H2 Hin2]; [by apply list_lookup_insert_eq|done|].
  rewrite list_insert_insert_eq in H2.
  destruct (cycle_pattern_step (<[i := next_state (next_state t)]> buttons) i
              (next_state (next_state t)))
    as [H3 _]; [by apply list_lookup_insert_eq|done|].
  rewrite list_insert_insert_eq in H3.
  rewrite (next_state_thrice t Hin) in H3.
  rewrite (list_insert_id buttons i t Ht) in H3.
  exists (next_state t), (<[i := next_state (next_state t)]> buttons).
  split; [exact H1|]. split; [|split; [exact Hin1|split; [exact H2|exact H3]]].
  unfold pattern_states in Hin.
  repeat (apply elem_of_cons in Hin as [->|Hin]); [..|by apply elem_of_nil in Hin].
  - by left.
  - right; left. by split.
  - right; right. by split.
Qed.

Lemma cycle_pattern_cycles_witness :
  ∃ t' b2,
    cycle_pattern ["N"; "P"; "C"; "N"; "N"]%string 2
    = Ok (<[2 := t']> ["N"; "P"; "C"; "N"; "N"]%string)
    ∧ (("C" = "N" ∧ t' = "P") ∨ ("C" = "P" ∧ t' = "C") ∨ ("C" = "C" ∧ t' = "N"))%string
    ∧ t' ∈ pattern_states
    ∧ cycle_pattern (<[2 := t']> ["N"; "P"; "C"; "N"; "N"]%string) 2 = Ok b2
    ∧ cycle_pattern b2 2 = Ok ["N"; "P"; "C"; "N"; "N"]%string.
Proof.
  apply (cycle_pattern_cycles ["N"; "P"; "C"; "N"; "N"]%string 2 "C").
  - reflexivity.
  - unfold pattern_states. do 2 right. left.
Defined.

Lemma list_ascii_of_string_app (a b : string) :
  list_ascii_of_string (a ++ b) = list_ascii_of_string a ++ list_ascii_of_string b.
Proof. induction a as [|x a IH]; simpl; [done|]. by rewrite IH. Qed.

Lemma get_pattern_string_chars (buttons : list string) :
  list_ascii_of_string (get_pattern_string buttons)
  = buttons ≫= list_ascii_of_string.
Proof.
  unfold get_pattern_string.
  induction buttons as [|t [|t' rest] IH]; [done| |].
  - simpl. by rewrite app_nil_r.
  - change (String.concat "" (t :: t' :: rest))
      with (t ++ "" ++ String.concat "" (t' :: rest))%string.
    rewrite !list_ascii_of_string_app, IH. reflexivity.
Qed.

Lemma buttons_pattern_chars (buttons : list string) :
  Forall (λ t, t ∈ pattern_states) buttons →
  length (buttons ≫= list_ascii_of_string) = length buttons
  ∧ Forall (λ ch, ch ∈ list_ascii_of_string "CNP") (buttons ≫= list_ascii_of_string).
Proof.
  induction 1 as [|t rest Ht Hrest [IHlen IHall]]; [by split|].
  unfold pattern_states in Ht.
  repeat (apply elem_of_cons in Ht as [->|Ht]); [..|by apply elem_of_nil in Ht];
    (rewrite bind_cons; split;
     [by rewrite length_app, IHlen
     |apply Forall_app; split;
      [apply (bool_decide_unpack _); vm_compute; exact I|done]]).
Qed.

(** A session whose words have five characters and whose buttons show
    feedback symbols. *)
Definition session_ok (s : session) : Prop :=
  words (s_candidates s) ∧ words (s_allowed s) ∧ buttons_ok (s_buttons s).

(** The test of [_apply_feedback] on the pattern. *)
Definition pattern_rejected (pat : string) : bool :=
  bool_decide (String.length pat ≠ 5)
  || existsb (λ ch, bool_decide (ch ∉ list_ascii_of_string "CNP"))
       (list_ascii_of_string pat).

Lemma reset_pattern_ok (buttons : list string) :
  length buttons = 5 → buttons_ok (reset_pattern buttons).
Proof.
  intros Hlen. unfold buttons_ok, reset_pattern. rewrite length_fmap.
  split; [done|]. apply Forall_fmap, Forall_forall. intros t _. simpl.
  apply (bool_decide_unpack _). vm_compute. exact I.
Qed.

Lemma existsb_false {A : Type} (f : A → bool) (l : list A) :
  Forall (λ x, f x = false) l → existsb f l = false.
Proof. induction 1 as [|x l Hx _ IH]; simpl; [done|]. by rewrite Hx, IH. Qed.

Lemma buttons_ok_pattern (buttons : list string) :
  buttons_ok buttons → pattern_rejected (get_pattern_string buttons) = false.
Proof.
  intros [Hlen Hall]. unfold pattern_rejected.
  destruct (buttons_pattern_chars buttons Hall) as [Hl Hc].
  rewrite <- get_pattern_string_chars in Hl, Hc.
  rewrite length_list_ascii_of_string in Hl.
  rewrite bool_decide_eq_false_2 by (intros Hne; apply Hne; congruence).
  simpl. apply existsb_false. eapply Forall_impl; [exact Hc|].
  intros ch Hch. by apply bool_decide_eq_false_2; intros Hn.
Qed.

Lemma guess_guard (guess : string) :
  bool_decide (String.length guess ≠ 5)
  || bool_decide (list_to_set (list_ascii_of_string guess) ∖ ALPHA ≠ (∅ : gset ascii))
  = bool_decide (¬ is_word guess).
Proof.
  unfold is_word.
  assert (list_to_set (list_ascii_of_string guess) ∖ ALPHA = (∅ : gset ascii)
          ↔ list_to_set (list_ascii_of_string guess) ⊆ ALPHA) as Hsub.
  { generalize (list_to_set (list_ascii_of_string guess) : gset ascii).
    intros X. split.
    - intros HX x Hx. destruct (decide (x ∈ ALPHA)) as [|Hn]; [done|].
      assert (x ∈ X ∖ ALPHA) as Hd by (apply elem_of_difference; by split).
      rewrite HX in Hd. by apply elem_of_empty in Hd.
    - intros HX. apply leibniz_equiv. intros x. split.
      + intros [Hx Hn]%elem_of_difference. destruct Hn. by apply HX.
      + by intros ?%elem_of_empty. }
  repeat case_bool_decide; simpl; try done; tauto.
Qed.

Section gui_facts.
Variable log2 : float → result float.
Variable strip_lower : string → string.

Lemma best_entropy_guess_returns (candidates allowed : list string) :
  words candidates → words allowed →
  log2_fits log2 (Z.of_nat (length candidates)) →
  ∃ r, best_entropy_guess log2 candidates allowed = Ok r.
Proof.
  intros Hc Ha Hl. rewrite best_entropy_guess_unfold.
  assert (Hpool : words (chosen_pool candidates allowed))
    by (unfold chosen_pool; by case_bool_decide).
  destruct (chosen_pool candidates allowed) as [|g pool] eqn:E.
  - by eexists.
  - destruct (best_entropy_scan_winner log2 candidates (g :: pool))
      as (b & be & -> & _); [done| |by eexists].
    intros g' Hg'. apply entropy_of_guess_nonneg; [|done..].
    unfold words in Hpool. rewrite Forall_forall in Hpool. by apply Hpool.
Qed.

Lemma best_likelihood_guess_returns (candidates : list string) :
  words candidates → ∃ r, best_likelihood_guess candidates = Ok r.
Proof.
  intros Hc.
  destruct (best_likelihood_guess_outcome candidates)
    as [[Hbad _]|[_ (pf & best & _ & -> & _)]]; [|by eexists].
  apply Exists_exists in Hbad as (w & Hw & Hlen).
  unfold words in Hc. rewrite Forall_forall in Hc. specialize (Hc w Hw). lia.
Qed.

Lemma refresh_recommendation_returns (s : session) :
  words (s_candidates s) → words (s_allowed s) →
  log2_fits log2 (Z.of_nat (length (s_candidates s))) →
  refresh_recommendation log2 s = Ok ().
Proof.
  intros Hc Ha Hl. unfold refresh_recommendation. case_bool_decide; [done|].
  destruct (best_entropy_guess_returns _ _ Hc Ha Hl) as [r ->].
  destruct (best_likelihood_guess_returns _ Hc) as [r' ->].
  by rewrite !result_bind_Ok.
Qed.

(** The four ways [_apply_feedback] can go. *)
Lemma apply_feedback_cases (entry : string) (s : session) :
  let guess := strip_lower entry in
  let pat := get_pattern_string (s_buttons s) in
  let kept := filter (λ w, pattern_for guess w = Ok pat) (s_candidates s) in
  (¬ is_word guess
   ∧ apply_feedback log2 strip_lower entry s = Ok (s, InvalidGuess))
  ∨ (is_word guess ∧ pattern_rejected pat = true
     ∧ apply_feedback log2 strip_lower entry s = Ok (s, InvalidPattern))
  ∨ (is_word guess ∧ pattern_rejected pat = false
     ∧ filter_raises (s_candidates s) guess
     ∧ apply_feedback log2 strip_lower entry s = Raise IndexError)
  ∨ (is_word guess ∧ pattern_rejected pat = false
     ∧ ¬ filter_raises (s_candidates s) guess
     ∧ apply_feedback log2 strip_lower entry s =
       let s1 := Session kept (s_allowed s) (s_turn s) (s_buttons s) in
       if bool_decide (pat = "CCCCC"%string)
       then _ ← refresh_recommendation log2 s1; Ok (s1, Solved)
       else if bool_decide (kept = []) then Ok (s1, NoCandidates)
       else
         _ ← refresh_recommendation log2
               (Session kept (s_allowed s) (s_turn s + 1)%Z (s_buttons s));
         Ok (Session kept (s_allowed s) (s_turn s + 1)%Z
               (reset_pattern (s_buttons s)), NextTurn)).
Proof.
  intros guess pat kept. unfold apply_feedback. fold guess. fold pat.
  rewrite guess_guard. fold (pattern_rejected pat).
  case_bool_decide as Hw; [by left|].
  destruct (pattern_rejected pat) eqn:Hp; [right; left; by split|].
  right; right. unfold filter_candidates.
  destruct (filter_candidates_outcome (s_candidates s) [] guess pat)
    as [[Hbad ->]|[Hgood ->]].
  - left. split; [done|]. split; [done|]. by split.
  - right. split; [done|]. split; [done|]. split; [done|].
    rewrite result_bind_Ok. simpl app. fold kept.
    destruct (bool_decide (pat = "CCCCC"%string)); [done|].
    destruct kept; done.
Qed.
End gui_facts.


Lemma words_not_filter_raises (cands : list string) (guess : string) :
  words cands → String.length guess = 5 → ¬ filter_raises cands guess.
Proof.
  intros Hc Hg [[_ Hlt]|Hbad]; [lia|].
  apply Exists_exists in Hbad as (w & Hw & Hlen).
  unfold words in Hc. rewrite Forall_forall in Hc. specialize (Hc w Hw). lia.
Qed.


Section session_facts.
Variable log2 : float → result float.
Variable strip_lower : string → string.

(** X22: in a session whose words have five characters and whose buttons
    show feedback symbols, applying feedback never raises, whatever the text
    of the entry; it never reports an invalid pattern; the candidates do not
    grow in number and the session stays such a session. *)
Theorem apply_feedback_never_raises (entry : string) (s : session) :
  session_ok s →
  (∀ n, n ≤ length (s_candidates s) → log2_fits log2 (Z.of_nat n)) →
  ∃ s' o, apply_feedback log2 strip_lower entry s = Ok (s', o)
          ∧ o ≠ InvalidPattern
          ∧ session_ok s'
          ∧ length (s_candidates s') ≤ length (s_candidates s).
Proof.
  intros (Hc & Ha & Hb) Hlog2.
  pose proof (length_filter
                (λ w, pattern_for (strip_lower entry) w
                      = Ok (get_pattern_string (s_buttons s)))
                (s_candidates s)) as Hlen.
  assert (Hkept : words (filter (λ w, pattern_for (strip_lower entry) w
                                      = Ok (get_pattern_string (s_buttons s)))
                           (s_candidates s)))
    by (by apply words_filter).
  destruct (apply_feedback_cases log2 strip_lower entry s)
    as [[_ ->]|[(_ & Hrej & _)|[(Hw & _ & Hbad & _)|(Hw & _ & _ & ->)]]].
  - eexists _, _. split; [reflexivity|]. split; [done|]. split; [|done].
    by split.
  - by rewrite (buttons_ok_pattern _ Hb) in Hrej.
  - destruct Hw as [Hw _]. by destruct (words_not_filter_raises _ _ Hc Hw).
  - cbv zeta.
    assert (Hrefresh : ∀ t b,
              refresh_recommendation log2
                (Session (filter (λ w, pattern_for (strip_lower entry) w
                                       = Ok (get_pattern_string (s_buttons s)))
                            (s_candidates s)) (s_allowed s) t b) = Ok ()).
    { intros t b. apply refresh_recommendation_returns; [done|done|].
      by apply Hlog2. }
    rewrite !Hrefresh, !result_bind_Ok. destruct Hb as [Hb5 Hball].
    repeat case_bool_decide; eexists _, _;
      (split; [reflexivity|]); (split; [done|]);
      (split; [|done]); (split; [done|]); (split; [done|]); simpl;
      [by split..|by apply reset_pattern_ok].
Qed.

(** X23: what applying feedback does to the word lists. The allowed guesses
    are never changed. An entry that is not a word of five lowercase letters
    is reported as an invalid guess, and only such an entry; an invalid
    guess or pattern leaves the whole session as it was. In every other
    case the candidates become exactly those whose pattern for the guess is
    the pattern on the buttons, in their order. *)
Theorem apply_feedback_filters (entry : string) (s s' : session) (o : outcome) :
  apply_feedback log2 strip_lower entry s = Ok (s', o) →
  s_allowed s' = s_allowed s
  ∧ (o = InvalidGuess ↔ ¬ is_word (strip_lower entry))
  ∧ (o = InvalidGuess ∨ o = InvalidPattern → s' = s)
  ∧ (o ≠ InvalidGuess → o ≠ InvalidPattern →
     s_candidates s'
     = filter (λ w, pattern_for (strip_lower entry) w
                    = Ok (get_pattern_string (s_buttons s)))
         (s_candidates s)).
Proof.
  intros Hrun.
  destruct (apply_feedback_cases log2 strip_lower entry s)
    as [[Hw Heq]|[(Hw & _ & Heq)|[(_ & _ & _ & Heq)|(Hw & _ & _ & Heq)]]];
    rewrite Heq in Hrun; clear Heq.
  - inversion Hrun; subst. by repeat split.
  - inversion Hrun; subst. by repeat split.
  - done.
  - cbv zeta in Hrun.
    repeat case_bool_decide;
      repeat match type of Hrun with
             | context [refresh_recommendation ?l ?x] =>
                 destruct (refresh_recommendation l x) as [[]|?]; [|done]
             end;
      rewrite ?result_bind_Ok in Hrun; inversion Hrun; subst; simpl;
      (split; [done|]); (split; [by split|]); (split; [|done]);
      by intros [|].
Qed.

(** X24: what applying feedback does to the turn and to the buttons. Going
    on to the next turn adds one to the turn, sets every button back to N
    and happens only with candidates left; a solved game shows the pattern
    CCCCC and keeps turn and buttons; when no candidate is left turn and
    buttons are kept too; invalid input changes nothing. *)
Theorem apply_feedback_turn (entry : string) (s s' : session) (o : outcome) :
  apply_feedback log2 strip_lower entry s = Ok (s', o) →
  match o with
  | NextTurn =>
      s_turn s' = (s_turn s + 1)%Z
      ∧ s_buttons s' = replicate (length (s_buttons s)) "N"%string
      ∧ s_candidates s' ≠ []
      ∧ get_pattern_string (s_buttons s) ≠ "CCCCC"%string
  | Solved =>
      s_turn s' = s_turn s ∧ s_buttons s' = s_buttons s
      ∧ get_pattern_string (s_buttons s) = "CCCCC"%string
  | NoCandidates =>
      s_turn s' = s_turn s ∧ s_buttons s' = s_buttons s
      ∧ s_candidates s' = []
      ∧ get_pattern_string (s_buttons s) ≠ "CCCCC"%string
  | InvalidGuess | InvalidPattern => s' = s
  end.
Proof.
  intros Hrun.
  destruct (apply_feedback_cases log2 strip_lower entry s)
    as [[Hw Heq]|[(Hw & _ & Heq)|[(_ & _ & _ & Heq)|(Hw & _ & _ & Heq)]]];
    rewrite Heq in Hrun; clear Heq.
  - by inversion Hrun.
  - by inversion Hrun.
  - done.
  - cbv zeta in Hrun.
    repeat case_bool_decide;
      repeat match type of Hrun with
             | context [refresh_recommendation ?l ?x] =>
                 destruct (refresh_recommendation l x) as [[]|?]; [|done]
             end;
      rewrite ?result_bind_Ok in Hrun; inversion Hrun; subst; simpl;
      repeat split; try done.
    unfold reset_pattern. apply list_eq. intros i.
    rewrite list_lookup_fmap.
    destruct (s_buttons s !! i) eqn:Hi; simpl.
    + symmetry. apply lookup_replicate. split; [done|]. by eapply lookup_lt_Some.
    + symmetry. apply lookup_replicate_None. by apply lookup_ge_None.
Qed.

(** X25: feedback that is true. When the buttons show the pattern of the
    entered word against a solution that is among the candidates, applying
    it never raises and the solution is still a candidate afterwards. If
    the entered word is the solution the game is reported solved and only
    the solution is left; otherwise the game goes on to the next turn and
    the entered word is no candidate any more. *)
Theorem apply_feedback_true_feedback (entry solution : string) (s : session) :
  session_ok s →
  (∀ n, n ≤ length (s_candidates s) → log2_fits log2 (Z.of_nat n)) →
  is_word (strip_lower entry) →
  solution ∈ s_candidates s →
  pattern_for (strip_lower entry) solution
  = Ok (get_pattern_string (s_buttons s)) →
  ∃ s' o, apply_feedback log2 strip_lower entry s = Ok (s', o)
          ∧ solution ∈ s_candidates s'
          ∧ (strip_lower entry = solution →
             o = Solved ∧ ∀ w, w ∈ s_candidates s' → w = solution)
          ∧ (strip_lower entry ≠ solution →
             o = NextTurn ∧ strip_lower entry ∉ s_candidates s').
Proof.
  intros (Hc & Ha & Hb) Hlog2 Hword Hsol Hpat.
  pose proof (proj1 Hword) as Hg.
  set (guess := strip_lower entry) in *.
  set (pat := get_pattern_string (s_buttons s)) in *.
  assert (Hall : ∀ w, w ∈ s_candidates s → String.length w = 5).
  { unfold words in Hc. by rewrite Forall_forall in Hc. }
  pose proof (length_filter (λ w, pattern_for guess w = Ok pat) (s_candidates s))
    as Hlen.
  assert (Hkept : words (filter (λ w, pattern_for guess w = Ok pat) (s_candidates s)))
    by (by apply words_filter).
  assert (Hin : solution ∈ filter (λ w, pattern_for guess w = Ok pat) (s_candidates s))
    by (by apply list_elem_of_filter).
  assert (Hsolved : pat = "CCCCC"%string ↔ guess = solution).
  { rewrite <- (pattern_for_solved_iff guess solution Hg (Hall _ Hsol)).
    rewrite Hpat. split; congruence. }
  destruct (apply_feedback_cases log2 strip_lower entry s)
    as [[Hw _]|[(_ & Hrej & _)|[(_ & _ & Hbad & _)|(_ & _ & _ & ->)]]].
  - done.
  - by rewrite (buttons_ok_pattern _ Hb) in Hrej.
  - by destruct (words_not_filter_raises _ _ Hc Hg).
  - cbv zeta. fold guess pat.
    assert (Hrefresh : ∀ t b,
              refresh_recommendation log2
                (Session (filter (λ w, pattern_for guess w = Ok pat)
                            (s_candidates s)) (s_allowed s) t b) = Ok ()).
    { intros t b. apply refresh_recommendation_returns; [done|done|].
      by apply Hlog2. }
    rewrite !Hrefresh, !result_bind_Ok.
    case_bool_decide as Hp.
    + eexists _, _. split; [reflexivity|]. simpl. split; [done|]. split.
      * intros _. split; [done|]. intros w [Hw Hwin]%list_elem_of_filter.
        rewrite Hp in Hw. apply pattern_for_solved_iff in Hw; [|done|by apply Hall].
        apply Hsolved in Hp. congruence.
      * intros Hne. by apply Hsolved in Hp.
    + case_bool_decide as He; [rewrite He in Hin; by apply elem_of_nil in Hin|].
      eexists _, _. split; [reflexivity|]. simpl. split; [done|]. split.
      * intros Heq. by apply Hsolved in Heq.
      * intros _. split; [done|]. intros [Hw _]%list_elem_of_filter.
        apply Hp. assert (pattern_for guess guess = Ok "CCCCC"%string) as Hself
          by (by apply pattern_for_solved_iff).
        congruence.
Qed.
End session_facts.

Lemma log2_floor_fits_upto_3 (n : nat) :
  n ≤ 3 → log2_fits log2_floor (Z.of_nat n).
Proof.
  intros Hn k Hk.
  assert (n = 1 ∨ n = 2 ∨ n = 3) as [-> | [-> | ->]] by lia;
    [assert (k = 1)%Z as -> by lia
    |assert (k = 1 ∨ k = 2)%Z as [-> | ->] by lia
    |assert (k = 1 ∨ k = 2 ∨ k = 3)%Z as [-> | [-> | ->]] by lia];
    (eexists _, _; repeat split; vm_compute; reflexivity).
Qed.

Lemma apply_feedback_never_raises_witness :
  ∃ s' o,
    apply_feedback log2_floor id "crane"
      (Session ["crane"; "slate"; "grape"]%string FALLBACK 1
         ["N"; "C"; "C"; "N"; "C"]%string) = Ok (s', o)
    ∧ o ≠ InvalidPattern
    ∧ session_ok s'
    ∧ length (s_candidates s') ≤ 3.
Proof.
  apply (apply_feedback_never_raises log2_floor id "crane"
           (Session ["crane"; "slate"; "grape"]%string FALLBACK 1
              ["N"; "C"; "C"; "N"; "C"]%string)).
  - split; [repeat constructor|]. split; [repeat constructor|].
    split; [reflexivity|]. repeat constructor.
  - exact log2_floor_fits_upto_3.
Defined.

Lemma apply_feedback_filters_witness :
  s_allowed (Session ["grape"%string] FALLBACK 2 (replicate 5 "N"%string)) = FALLBACK
  ∧ (NextTurn = InvalidGuess ↔ ¬ is_word (id "crane"))
  ∧ (NextTurn = InvalidGuess ∨ NextTurn = InvalidPattern →
     Session ["grape"%string] FALLBACK 2 (replicate 5 "N"%string)
     = Session ["crane"; "slate"; "grape"]%string FALLBACK 1
         ["N"; "C"; "C"; "N"; "C"]%string)
  ∧ (NextTurn ≠ InvalidGuess → NextTurn ≠ InvalidPattern →
     ["grape"%string]
     = filter (λ w, pattern_for (id "crane") w
                    = Ok (get_pattern_string ["N"; "C"; "C"; "N"; "C"]%string))
         ["crane"; "slate"; "grape"]%string).
Proof.
  exact (apply_feedback_filters log2_floor id "crane"
           (Session ["crane"; "slate"; "grape"]%string FALLBACK 1
              ["N"; "C"; "C"; "N"; "C"]%string)
           (Session ["grape"%string] FALLBACK 2 (replicate 5 "N"%string))
           NextTurn apply_feedback_crane).
Defined.

Lemma apply_feedback_turn_witness :
  2%Z = (1 + 1)%Z
  ∧ replicate 5 "N"%string = replicate 5 "N"%string
  ∧ ["grape"%string] ≠ []
  ∧ get_pattern_string ["N"; "C"; "C"; "N"; "C"]%string ≠ "CCCCC"%string.
Proof.
  exact (apply_feedback_turn log2_floor id "crane"
           (Session ["crane"; "slate"; "grape"]%string FALLBACK 1
              ["N"; "C"; "C"; "N"; "C"]%string)
           (Session ["grape"%string] FALLBACK 2 (replicate 5 "N"%string))
           NextTurn apply_feedback_crane).
Defined.

Lemma apply_feedback_true_feedback_witness :
  ∃ s' o,
    apply_feedback log2_floor id "crane"
      (Session ["crane"; "slate"; "grape"]%string FALLBACK 1
         ["N"; "C"; "C"; "N"; "C"]%string) = Ok (s', o)
    ∧ "grape"%string ∈ s_candidates s'
    ∧ (id "crane"%string = "grape"%string →
       o = Solved ∧ ∀ w, w ∈ s_candidates s' → w = "grape"%string)
    ∧ (id "crane"%string ≠ "grape"%string →
       o = NextTurn ∧ id "crane"%string ∉ s_candidates s').
Proof.
  apply (apply_feedback_true_feedback log2_floor id "crane" "grape"
           (Session ["crane"; "slate"; "grape"]%string FALLBACK 1
              ["N"; "C"; "C"; "N"; "C"]%string)).
  - split; [repeat constructor|]. split; [repeat constructor|].
    split; [reflexivity|]. repeat constructor.
  - exact log2_floor_fits_upto_3.
  - apply (bool_decide_unpack _). vm_compute. exact I.
  - simpl. do 2 right. left.
  - vm_compute. reflexivity.
Defined.



